(** * MorphoScope: the quantification core of [image_processor.py]

    A shallow embedding of [ImageProcessor] (fluorescence, PCA rotation
    angle, slice-wise rotation, local and global spreads, and the
    [process_image] orchestrator) together with the properties of its
    specification.

    Number model.  NumPy's [float64] arithmetic is idealised: a finite
    value is a real number and [+], [*], [/], [sqrt], [arctan] are the exact
    real operations, so rounding error of the binary format is not part of
    the model.  What IS part of the model are the special values the code
    relies on: signed zeros, the infinities produced by a division by zero,
    and NaN ([0/0], [sqrt] of a negative number, [np.nan]).  Arrays hold
    finite intensities (reals); scalars computed by a division, a square
    root or an arctangent are [float64] values. *)

From Stdlib Require Import Reals List Bool ZArith Lia Lra Psatz.
From Stdlib Require Strings.String.
Import ListNotations.
Import String.StringSyntax.
Delimit Scope string_scope with string.
Open Scope R_scope.

(* ================================================================== *)
(** ** NumPy scalars *)
(* ================================================================== *)

(** A [float64] in sign-magnitude form, as IEEE 754 stores it: the
    magnitude of [FNum] is meant to be non-negative, [FNum true 0] is the
    negative zero. *)
Inductive float64 : Type :=
| FNum (neg : bool) (mag : R)
| FInf (neg : bool)
| FNaN.

(** The magnitudes are non-negative in every value the program builds. *)
Definition float_wf (x : float64) : Prop :=
  match x with
  | FNum _ m => 0 <= m
  | _ => True
  end.

Definition Rltb (a b : R) : bool := if Rlt_dec a b then true else false.
Definition Reqb (a b : R) : bool := if Req_dec_T a b then true else false.

(** A finite Python or NumPy number seen as a [float64]. *)
Definition of_R (r : R) : float64 := FNum (Rltb r 0) (Rabs r).

(** [x * y] *)
Definition fmul (x y : float64) : float64 :=
  match x, y with
  | FNaN, _ | _, FNaN => FNaN
  | FNum s1 m1, FNum s2 m2 => FNum (xorb s1 s2) (m1 * m2)
  | FNum s1 m1, FInf s2 => if Reqb m1 0 then FNaN else FInf (xorb s1 s2)
  | FInf s1, FNum s2 m2 => if Reqb m2 0 then FNaN else FInf (xorb s1 s2)
  | FInf s1, FInf s2 => FInf (xorb s1 s2)
  end.

(** [x / y] on NumPy scalars: a division by zero gives an infinity (or NaN
    for [0/0]) and a [RuntimeWarning]; it does not raise. *)
Definition fdiv (x y : float64) : float64 :=
  match x, y with
  | FNaN, _ | _, FNaN => FNaN
  | FNum s1 m1, FNum s2 m2 =>
      if Reqb m2 0
      then (if Reqb m1 0 then FNaN else FInf (xorb s1 s2))
      else FNum (xorb s1 s2) (m1 / m2)
  | FNum s1 _, FInf s2 => FNum (xorb s1 s2) 0
  | FInf s1, FNum s2 _ => FInf (xorb s1 s2)
  | FInf _, FInf _ => FNaN
  end.

(** [np.sqrt]: NaN on a negative argument, [-0.0] on [-0.0]. *)
Definition fsqrt (x : float64) : float64 :=
  match x with
  | FNum false m => FNum false (sqrt m)
  | FNum true m => if Reqb m 0 then FNum true 0 else FNaN
  | FInf false => FInf false
  | FInf true => FNaN
  | FNaN => FNaN
  end.

(** [np.arctan]: odd, and [±pi/2] at the infinities. *)
Definition farctan (x : float64) : float64 :=
  match x with
  | FNum s m => FNum s (atan m)
  | FInf s => FNum s (PI / 2)
  | FNaN => FNaN
  end.

(** Round half to even, to the nearest integer ([np.rint]). *)
Definition rint (x : R) : Z :=
  let n := Int_part x in
  let f := x - IZR n in
  if Rlt_dec f (1 / 2) then n
  else if Rlt_dec (1 / 2) f then (n + 1)%Z
  else if Z.even n then n else (n + 1)%Z.

(** [round(x, 2)] on a non-negative magnitude: scale by 100, round half to
    even, scale back. *)
Definition round2 (m : R) : R := IZR (rint (m * 100)) / 100.

(** [round(x, 2)] on a scalar; the rounding is symmetric, so it acts on the
    magnitude and keeps the sign, and it leaves infinities and NaN alone. *)
Definition fround2 (x : float64) : float64 :=
  match x with
  | FNum s m => FNum s (round2 m)
  | _ => x
  end.

(** [0.0] *)
Definition fzero : float64 := FNum false 0.

(* ================================================================== *)
(** ** NumPy arrays *)
(* ================================================================== *)

(** An [ndarray] is a shape and the values at the indices inside it.  The
    values are finite intensities. *)
Record array2 : Type := { shape2 : nat * nat; data2 : nat -> nat -> R }.
Record array3 : Type := { shape3 : nat * nat * nat; data3 : nat -> nat -> nat -> R }.

Definition nrows (a : array3) : nat := fst (fst (shape3 a)).
Definition ncols (a : array3) : nat := snd (fst (shape3 a)).
Definition depth (a : array3) : nat := snd (shape3 a).

(** [np.sum] of a one-dimensional array. *)
Definition Rsum (l : list R) : R := fold_right Rplus 0 l.

(** [sum_over n f] is the sum of [f 0 .. f (n-1)]: [np.sum] along an axis of
    extent [n]. *)
Definition sum_over (n : nat) (f : nat -> R) : R := Rsum (map f (seq 0 n)).

Definition any_over (n : nat) (p : nat -> bool) : bool := existsb p (seq 0 n).

Definition count_over (n : nat) (c : nat -> nat) : nat :=
  fold_right Nat.add 0%nat (map c (seq 0 n)).

(** [np.sum(a)] *)
Definition sum3 (a : array3) : R :=
  sum_over (nrows a) (fun i =>
  sum_over (ncols a) (fun j =>
  sum_over (depth a) (fun k => data3 a i j k))).

(** [np.any(a < 0)] *)
Definition any_negative (a : array3) : bool :=
  any_over (nrows a) (fun i =>
  any_over (ncols a) (fun j =>
  any_over (depth a) (fun k => Rltb (data3 a i j k) 0))).

(** [np.sum(a < 0)] *)
Definition count_negative (a : array3) : nat :=
  count_over (nrows a) (fun i =>
  count_over (ncols a) (fun j =>
  count_over (depth a) (fun k => if Rltb (data3 a i j k) 0 then 1%nat else 0%nat))).

(** [a[:, :, zi]] *)
Definition slice_z (a : array3) (zi : nat) : array2 :=
  {| shape2 := (nrows a, ncols a); data2 := fun i j => data3 a i j zi |}.

(** [a.transpose(1, 2, 0)]: the new axes are the old axes 1, 2, 0. *)
Definition transpose_120 (a : array3) : array3 :=
  {| shape3 := (ncols a, depth a, nrows a);
     data3 := fun i j k => data3 a k i j |}.

(** [np.rot90(a, k=1, axes=(0, 1))]: flip axis 1, then swap axes 0 and 1. *)
Definition rot90 (a : array3) : array3 :=
  {| shape3 := (ncols a, nrows a, depth a);
     data3 := fun i j k => data3 a j (ncols a - 1 - i)%nat k |}.

(** [np.arange(1, n + 1)] *)
Definition arange1 (n : nat) : list R := map (fun i => INR (i + 1)) (seq 0 n).

(** Elementwise operation on two arrays of one length (NumPy raises on a
    length mismatch; the sequences of a profile have one length). *)
Fixpoint map2 {A B C : Type} (f : A -> B -> C) (l1 : list A) (l2 : list B) : list C :=
  match l1, l2 with
  | a :: l1', b :: l2' => f a b :: map2 f l1' l2'
  | _, _ => []
  end.

(** An entry of a variance profile: a finite value, or [np.nan] ([None]). *)
Definition nanable : Type := option R.

(** [np.nansum]: NaN entries count as zero. *)
Definition nansum (l : list nanable) : R :=
  Rsum (map (fun o => match o with Some r => r | None => 0 end) l).

(** [v * s] with [v] possibly NaN. *)
Definition nan_mul (v : nanable) (s : R) : nanable := option_map (fun x => x * s) v.

(* ================================================================== *)
(** ** Results and errors *)
(* ================================================================== *)

(** The messages of the two [ValueError]s of [process_image]. *)
Inductive error_message : Type :=
| Image_contains_negative_values (count : nat)
| Rotated_image_contains_negative_values (count : nat).

Inductive exn : Type :=
| ValueError (msg : error_message)
| IndexError.

Inductive result (A : Type) : Type :=
| Ok (a : A)
| Raise (e : exn).
Arguments Ok {A} a.
Arguments Raise {A} e.

(** The result dictionary.  The keys that [calculate_global_spreads] does
    not set are optional; [process_image] sets them before it returns. *)
Record SpreadResult : Type := {
  spread_x_pixel : float64;
  spread_y_pixel : float64;
  spread_z_pixel : float64;
  spread_xy_pixel : float64;
  spread_xyz_pixel : float64;
  spread_x_um : float64;
  spread_y_um : float64;
  spread_z_um : float64;
  spread_xy_um : float64;
  spread_xyz_um : float64;
  axonal_volume : float64;
  MMsum : list R;
  MMyy : list nanable;
  MMzz : list nanable;
  fluorescence_px : option float64;
  fluorescence_um : option float64;
  rotation_angle : option float64;
  additional_rotation : option Z
}.

(** A 2x2 matrix, [mIJ] at row [I] and column [J]. *)
Record mat2 (A : Type) : Type := { m00 : A; m01 : A; m10 : A; m11 : A }.
Arguments m00 {A} _.
Arguments m01 {A} _.
Arguments m10 {A} _.
Arguments m11 {A} _.

(** What [np.linalg.eig] returns: the eigenvalues, and the matrix whose
    column [j] is the eigenvector paired with eigenvalue [j]. *)
Record eig_result : Type := {
  eigenvalues : R * R;
  eigenvectors : mat2 float64
}.

(* ================================================================== *)
(** ** ImageProcessor *)
(* ================================================================== *)

Section ImageProcessor.

(** [self.voxel_size_x], [self.voxel_size_y], [self.voxel_size_z] *)
Variables voxel_size_x voxel_size_y voxel_size_z : R.

(** [np.linalg.eig] on a 2x2 matrix.  NumPy documents that the eigenvalues
    are not necessarily ordered and that the eigenvectors have unit
    length. *)
Variable linalg_eig : mat2 R -> eig_result.

(** [scipy.ndimage.rotate(slice, angle=angle, reshape=True, order=1)]: the
    shape of the output depends on the shape of the input and on the
    angle only; the values are resampled from the input slice. *)
Variable ndi_rotate_shape : nat * nat -> float64 -> nat * nat.
Variable ndi_rotate_data : array2 -> float64 -> nat -> nat -> R.

Definition ndi_rotate (s : array2) (angle : float64) : array2 :=
  {| shape2 := ndi_rotate_shape (shape2 s) angle;
     data2 := ndi_rotate_data s angle |}.

Definition calculate_fluorescence (image_3d : array3) (mask_area_pixels : R)
  : float64 * float64 :=
  let total_intensity := sum3 image_3d in
  let fluor_px := fdiv (of_R total_intensity) (of_R mask_area_pixels) in
  let area_um2 := mask_area_pixels * (voxel_size_x * voxel_size_y) in
  let fluor_um := fdiv (of_R total_intensity) (of_R area_um2) in
  (fround2 fluor_px, fround2 fluor_um).

(** [np.sum(image_yxz, axis=2)] *)
Definition projection_z (image_yxz : array3) (i j : nat) : R :=
  sum_over (depth image_yxz) (fun k => data3 image_yxz i j k).

(** [np.sum] over the rows and columns of the projection. *)
Definition sum_grid (image_yxz : array3) (f : nat -> nat -> R) : R :=
  sum_over (nrows image_yxz) (fun i => sum_over (ncols image_yxz) (fun j => f i j)).

(** The covariance matrix of the normalised projection; [XX] holds the
    column index and [YY] the row index of each pixel. *)
Definition cov_matrix (image_yxz : array3) : mat2 R :=
  let sum_projection := sum_grid image_yxz (projection_z image_yxz) in
  let projection_z_norm i j := projection_z image_yxz i j / sum_projection in
  let XX (i j : nat) := INR j in
  let YY (i j : nat) := INR i in
  let Mx := sum_grid image_yxz (fun i j => XX i j * projection_z_norm i j) in
  let My := sum_grid image_yxz (fun i j => YY i j * projection_z_norm i j) in
  let Cxx := sum_grid image_yxz (fun i j => projection_z_norm i j * (XX i j - Mx) ^ 2) in
  let Cyy := sum_grid image_yxz (fun i j => projection_z_norm i j * (YY i j - My) ^ 2) in
  let Cxy := sum_grid image_yxz
               (fun i j => projection_z_norm i j * (XX i j - Mx) * (YY i j - My)) in
  {| m00 := Cxx; m01 := Cxy; m10 := Cxy; m11 := Cyy |}.

(** [np.arctan(q) * 180 / np.pi] *)
Definition farctan_quotient_degrees (q : float64) : float64 :=
  fdiv (fmul (farctan q) (of_R 180)) (of_R PI).

(** [np.arctan(v1 / v0) * 180 / np.pi] *)
Definition arctan_degrees (v1 v0 : float64) : float64 :=
  farctan_quotient_degrees (fdiv v1 v0).

Definition calculate_pca_rotation_angle (image_yxz : array3) : float64 :=
  let sum_projection := sum_grid image_yxz (projection_z image_yxz) in
  if Req_dec_T sum_projection 0 then fzero
  else
    let eigenvectors := eigenvectors (linalg_eig (cov_matrix image_yxz)) in
    arctan_degrees (m10 eigenvectors) (m00 eigenvectors).

(** An empty stack has no first slice: [image_yxz[:, :, 0]] raises. *)
Definition rotate_image (image_yxz : array3) (angle : float64) : result array3 :=
  match depth image_yxz with
  | O => Raise IndexError
  | S _ =>
      let rotated_first := ndi_rotate (slice_z image_yxz 0) angle in
      Ok {| shape3 := (fst (shape2 rotated_first), snd (shape2 rotated_first),
                       depth image_yxz);
            data3 := fun i j zi => data2 (ndi_rotate (slice_z image_yxz zi) angle) i j |}
  end.

(** The work of one iteration of the loop of [calculate_local_spreads] on
    the slab [MM], of shape [(nz, ny)]: the sum, and the two weighted
    variances or NaN. *)
Definition slab_spreads (nz ny : nat) (MM : nat -> nat -> R) : R * nanable * nanable :=
  let MMsum_i := sum_over nz (fun z => sum_over ny (fun y => MM z y)) in
  let sum_axis1 z := sum_over ny (fun y => MM z y) in
  let sum_axis0 y := sum_over nz (fun z => MM z y) in
  let zz00 z := INR (z + 1) in
  let yy00 y := INR (y + 1) in
  if Rlt_dec 0 MMsum_i then
    let MMz := sum_over nz (fun z => zz00 z * sum_axis1 z) / MMsum_i in
    let MMy := sum_over ny (fun y => yy00 y * sum_axis0 y) / MMsum_i in
    (MMsum_i,
     Some (sum_over ny (fun y => (yy00 y - MMy) ^ 2 * sum_axis0 y) / MMsum_i),
     Some (sum_over nz (fun z => (zz00 z - MMz) ^ 2 * sum_axis1 z) / MMsum_i))
  else (MMsum_i, None, None).

Definition calculate_local_spreads (image_yxz_rotated : array3)
    (after_90deg_rotation : bool)
  : list R * list nanable * list nanable * list R :=
  let nrows := nrows image_yxz_rotated in
  let ncols := ncols image_yxz_rotated in
  let depth := depth image_yxz_rotated in
  if after_90deg_rotation then
    let per_column := map (fun i =>
      slab_spreads depth nrows (fun z y => data3 image_yxz_rotated y i z)) (seq 0 ncols) in
    (map (fun t => fst (fst t)) per_column,
     map (fun t => snd (fst t)) per_column,
     map (fun t => snd t) per_column,
     arange1 ncols)
  else
    let per_row := map (fun i =>
      slab_spreads depth ncols (fun z y => data3 image_yxz_rotated i y z)) (seq 0 nrows) in
    (map (fun t => fst (fst t)) per_row,
     map (fun t => snd (fst t)) per_row,
     map (fun t => snd t) per_row,
     arange1 nrows).

Definition _get_empty_results : SpreadResult :=
  {| spread_x_pixel := fzero; spread_y_pixel := fzero; spread_z_pixel := fzero;
     spread_xy_pixel := fzero; spread_xyz_pixel := fzero;
     spread_x_um := fzero; spread_y_um := fzero; spread_z_um := fzero;
     spread_xy_um := fzero; spread_xyz_um := fzero;
     axonal_volume := fzero;
     MMsum := []; MMyy := []; MMzz := [];
     fluorescence_px := Some fzero; fluorescence_um := Some fzero;
     rotation_angle := Some fzero;
     additional_rotation := None |}.

(** The spreads before the rounding of the result dictionary. *)
Definition spread_x_px (MMsum : list R) (xx00 : list R) : float64 :=
  let total_sum := Rsum MMsum in
  let MMx := Rsum (map2 Rmult xx00 MMsum) / total_sum in
  let MMxx := Rsum (map2 (fun s x => s * (x - MMx) ^ 2) MMsum xx00) / total_sum in
  fsqrt (of_R MMxx).

(** [sqrt(np.nansum(MMvv * MMsum) / total_sum)], for [MMyy] and [MMzz]. *)
Definition spread_transverse_px (MMsum : list R) (MMvv : list nanable) : float64 :=
  let total_sum := Rsum MMsum in
  let Total_var := nansum (map2 nan_mul MMvv MMsum) / total_sum in
  fsqrt (of_R Total_var).

Definition calculate_global_spreads (MMsum : list R) (MMyy MMzz : list nanable)
    (xx00 : list R) : SpreadResult :=
  let total_sum := Rsum MMsum in
  if Req_dec_T total_sum 0 then _get_empty_results
  else
    let spread_x_px := spread_x_px MMsum xx00 in
    let spread_y_px := spread_transverse_px MMsum MMyy in
    let spread_z_px := spread_transverse_px MMsum MMzz in
    let spread_x_um := fmul spread_x_px (of_R voxel_size_x) in
    let spread_y_um := fmul spread_y_px (of_R voxel_size_y) in
    let spread_z_um := fmul spread_z_px (of_R voxel_size_z) in
    let spread_xy_px := fmul spread_x_px spread_y_px in
    let spread_xyz_px := fmul (fmul spread_x_px spread_y_px) spread_z_px in
    let spread_xy_um := fmul spread_x_um spread_y_um in
    let spread_xyz_um := fmul (fmul spread_x_um spread_y_um) spread_z_um in
    let axonal_volume := of_R total_sum in
    {| spread_x_pixel := fround2 spread_x_px;
       spread_y_pixel := fround2 spread_y_px;
       spread_z_pixel := fround2 spread_z_px;
       spread_xy_pixel := fround2 spread_xy_px;
       spread_xyz_pixel := fround2 spread_xyz_px;
       spread_x_um := fround2 spread_x_um;
       spread_y_um := fround2 spread_y_um;
       spread_z_um := fround2 spread_z_um;
       spread_xy_um := fround2 spread_xy_um;
       spread_xyz_um := fround2 spread_xyz_um;
       axonal_volume := fround2 axonal_volume;
       MMsum := MMsum; MMyy := MMyy; MMzz := MMzz;
       fluorescence_px := None; fluorescence_um := None;
       rotation_angle := None; additional_rotation := None |}.

(** The four assignments that end [process_image]. *)
Definition add_metadata (spread_results : SpreadResult)
    (fluor_px fluor_um angle : float64) : SpreadResult :=
  {| spread_x_pixel := spread_x_pixel spread_results;
     spread_y_pixel := spread_y_pixel spread_results;
     spread_z_pixel := spread_z_pixel spread_results;
     spread_xy_pixel := spread_xy_pixel spread_results;
     spread_xyz_pixel := spread_xyz_pixel spread_results;
     spread_x_um := spread_x_um spread_results;
     spread_y_um := spread_y_um spread_results;
     spread_z_um := spread_z_um spread_results;
     spread_xy_um := spread_xy_um spread_results;
     spread_xyz_um := spread_xyz_um spread_results;
     axonal_volume := axonal_volume spread_results;
     MMsum := MMsum spread_results;
     MMyy := MMyy spread_results;
     MMzz := MMzz spread_results;
     fluorescence_px := Some fluor_px;
     fluorescence_um := Some fluor_um;
     rotation_angle := Some (fround2 angle);
     additional_rotation := Some 90%Z |}.

(** The layout heuristic that opens [process_image]. *)
Definition to_yxz (image_3d : array3) : array3 :=
  if (nrows image_3d <? depth image_3d)%nat then transpose_120 image_3d else image_3d.

Definition process_image (image_3d : array3) (mask_area_pixels : R)
  : result SpreadResult :=
  let image_yxz := to_yxz image_3d in
  if any_negative image_yxz then
    Raise (ValueError (Image_contains_negative_values (count_negative image_yxz)))
  else
    let '(fluor_px, fluor_um) := calculate_fluorescence image_yxz mask_area_pixels in
    let angle := calculate_pca_rotation_angle image_yxz in
    match rotate_image image_yxz angle with
    | Raise e => Raise e
    | Ok image_rotated =>
        if any_negative image_rotated then
          Raise (ValueError (Rotated_image_contains_negative_values
                               (count_negative image_rotated)))
        else
          let image_rotated_90 := rot90 image_rotated in
          let '(MMsum, MMyy, MMzz, xx00) :=
            calculate_local_spreads image_rotated_90 true in
          let spread_results := calculate_global_spreads MMsum MMyy MMzz xx00 in
          Ok (add_metadata spread_results fluor_px fluor_um angle)
    end.

End ImageProcessor.

(* ================================================================== *)
(** ** Library behaviour used at concrete inputs *)
(* ================================================================== *)

(** [np.linalg.eig] on a diagonal matrix returns the diagonal, in its own
    order, and the identity as eigenvectors (NumPy's documentation shows
    [eig(np.diag((1, 2, 3)))]).  It is the decomposition of a matrix whose
    off-diagonal entries are zero. *)
Definition eig_of_diagonal (M : mat2 R) : eig_result :=
  {| eigenvalues := (m00 M, m11 M);
     eigenvectors := {| m00 := FNum false 1; m01 := fzero;
                        m10 := fzero; m11 := FNum false 1 |} |}.

(** A decomposition of a diagonal matrix that lists the larger eigenvalue
    first: the ordering [calculate_pca_rotation_angle] takes for granted. *)
Definition eig_of_diagonal_descending (M : mat2 R) : eig_result :=
  if Rle_dec (m11 M) (m00 M) then eig_of_diagonal M
  else {| eigenvalues := (m11 M, m00 M);
          eigenvectors := {| m00 := fzero; m01 := FNum false 1;
                             m10 := FNum false 1; m11 := fzero |} |}.

(** [scipy.ndimage.rotate] by an angle of zero: the output is the input. *)
Definition rotate_shape_by_zero (sh : nat * nat) (angle : float64) : nat * nat := sh.
Definition rotate_data_by_zero (s : array2) (angle : float64) : nat -> nat -> R := data2 s.

(** A resampler that undershoots below zero, to exercise the second check. *)
Definition rotate_data_undershoot (s : array2) (angle : float64) : nat -> nat -> R :=
  fun i j => data2 s i j - 2.

(** The array of shape [(r, c, d)] filled with [v] ([np.full]). *)
Definition full (r c d : nat) (v : R) : array3 :=
  {| shape3 := (r, c, d); data3 := fun _ _ _ => v |}.

(** [np.ones((3, 1, 1))]: three rows, one column, one slice. *)
Definition column_volume : array3 := full 3 1 1 1.

(** Every intensity multiplied by [c], the geometry kept. *)
Definition scale_intensity (c : R) (a : array3) : array3 :=
  {| shape3 := shape3 a; data3 := fun i j k => c * data3 a i j k |}.

(* ================================================================== *)
(** ** The specification's formulations *)
(* ================================================================== *)

(** Spec 4.2 step 7: the angle of the eigenvector paired with the larger
    eigenvalue. *)
Definition principal_axis_angle_spec (res : eig_result) : float64 :=
  let V := eigenvectors res in
  if Rle_dec (snd (eigenvalues res)) (fst (eigenvalues res))
  then arctan_degrees (m10 V) (m00 V)
  else arctan_degrees (m11 V) (m01 V).

(** Spec 4.2, edge cases: the two-argument arctangent of the raw components
    [(y, x)], in degrees. *)
Definition arctan2_degrees (y x : R) : R :=
  if Rlt_dec 0 x then atan (y / x) * 180 / PI
  else if Rlt_dec x 0 then
         (if Rle_dec 0 y then atan (y / x) + PI else atan (y / x) - PI) * 180 / PI
  else if Rlt_dec 0 y then 90
  else if Rlt_dec y 0 then - 90
  else 0.

(** Spec 4.4: the intensity-weighted mean of a 1-indexed position over the
    slab of column [i], and the intensity-weighted variance around it, both
    normalised by the slab sum.  [pos y z] is the position of the voxel at
    row [y] and depth [z]. *)
Definition slab_sum_spec (a : array3) (i : nat) : R :=
  sum_over (nrows a) (fun y => sum_over (depth a) (fun z => data3 a y i z)).

Definition weighted_mean_spec (a : array3) (i : nat) (pos : nat -> nat -> R) : R :=
  sum_over (nrows a) (fun y => sum_over (depth a) (fun z => pos y z * data3 a y i z))
  / slab_sum_spec a i.

Definition weighted_variance_spec (a : array3) (i : nat) (pos : nat -> nat -> R) : R :=
  sum_over (nrows a) (fun y => sum_over (depth a) (fun z =>
     (pos y z - weighted_mean_spec a i pos) ^ 2 * data3 a y i z))
  / slab_sum_spec a i.

Definition row_position (y z : nat) : R := INR (y + 1).
Definition depth_position (y z : nat) : R := INR (z + 1).

(** The four sequences returned by [calculate_local_spreads]. *)
Definition profile : Type := (list R * list nanable * list nanable * list R)%type.
Definition profile_MMsum (p : profile) : list R := fst (fst (fst p)).
Definition profile_MMyy (p : profile) : list nanable := snd (fst (fst p)).
Definition profile_MMzz (p : profile) : list nanable := snd (fst p).
Definition profile_xx00 (p : profile) : list R := snd p.

(** The five pixel-unit spreads of a result record. *)
Definition pixel_spreads (r : SpreadResult)
  : float64 * float64 * float64 * float64 * float64 :=
  (spread_x_pixel r, spread_y_pixel r, spread_z_pixel r,
   spread_xy_pixel r, spread_xyz_pixel r).

(** The five physical-unit spreads of a result record. *)
Definition physical_spreads (r : SpreadResult)
  : float64 * float64 * float64 * float64 * float64 :=
  (spread_x_um r, spread_y_um r, spread_z_um r, spread_xy_um r, spread_xyz_um r).

(** Some voxel of the array is negative. *)
Definition has_negative (a : array3) : Prop :=
  exists i j k, (i < nrows a)%nat /\ (j < ncols a)%nat /\ (k < depth a)%nat /\
                data3 a i j k < 0.

(** A volume has at least one row, one column and one slice. *)
Definition non_empty (a : array3) : Prop :=
  (0 < nrows a)%nat /\ (0 < ncols a)%nat /\ (0 < depth a)%nat.

(** Every pixel of a slice is zero. *)
Definition all_zero2 (s : array2) : Prop :=
  forall i j, (i < fst (shape2 s))%nat -> (j < snd (shape2 s))%nat -> data2 s i j = 0.

(** Every voxel of a volume is zero. *)
Definition all_zero3 (a : array3) : Prop :=
  forall i j k, (i < nrows a)%nat -> (j < ncols a)%nat -> (k < depth a)%nat ->
                data3 a i j k = 0.

(** [b] has the geometry of [a] and [c] times its intensities. *)
Definition scaled2 (c : R) (a b : array2) : Prop :=
  shape2 b = shape2 a /\
  forall i j, (i < fst (shape2 a))%nat -> (j < snd (shape2 a))%nat ->
              data2 b i j = c * data2 a i j.

Definition scaled3 (c : R) (a b : array3) : Prop :=
  shape3 b = shape3 a /\
  forall i j k, (i < nrows a)%nat -> (j < ncols a)%nat -> (k < depth a)%nat ->
                data3 b i j k = c * data3 a i j k.

(** The resampler is homogeneous of degree one in the intensities, as an
    interpolation with fixed weights is. *)
Definition resampler_homogeneous
    (rs : nat * nat -> float64 -> nat * nat) (rd : array2 -> float64 -> nat -> nat -> R)
    (c : R) : Prop :=
  forall s s' angle, scaled2 c s s' ->
                     scaled2 c (ndi_rotate rs rd s angle) (ndi_rotate rs rd s' angle).

(** The profile computed by the pipeline, when the rotation succeeds. *)
Definition pipeline_profile (eig : mat2 R -> eig_result)
    (rs : nat * nat -> float64 -> nat * nat) (rd : array2 -> float64 -> nat -> nat -> R)
    (image_3d : array3) : option profile :=
  match rotate_image rs rd (to_yxz image_3d)
          (calculate_pca_rotation_angle eig (to_yxz image_3d)) with
  | Ok rot => Some (calculate_local_spreads (rot90 rot) true)
  | Raise _ => None
  end.

(** A field of the record returned, when one is returned. *)
Definition field_of {A : Type} (f : SpreadResult -> A) (res : result SpreadResult)
  : option A :=
  match res with
  | Ok r => Some (f r)
  | Raise _ => None
  end.

(** The message of a [ValueError] names a positive number of voxels. *)
Definition descriptive (msg : error_message) : Prop :=
  match msg with
  | Image_contains_negative_values n => (0 < n)%nat
  | Rotated_image_contains_negative_values n => (0 < n)%nat
  end.

(** The profile of three positions whose middle one carries no signal. *)
Definition gapped_sums : list R := [1; 0; 1].
Definition gapped_vars : list nanable := [Some 0; None; Some 0].
Definition gapped_xx00 : list R := [1; 2; 3].

(** The weighted variance of the 1-indexed positions [1..n] under the
    marginal [marg] of total [T], as the loop body computes it. *)
Definition marginal_variance (n : nat) (marg : nat -> R) (T : R) : R :=
  sum_over n (fun y =>
    (INR (y + 1) - sum_over n (fun y0 => INR (y0 + 1) * marg y0) / T) ^ 2 * marg y) / T.

(** The covariance matrix as a function of the normalised weights. *)
Definition cov_of_weights (nr nc : nat) (w : nat -> nat -> R) : mat2 R :=
  let grid f := sum_over nr (fun i => sum_over nc (fun j => f i j)) in
  let Mx := grid (fun i j => INR j * w i j) in
  let My := grid (fun i j => INR i * w i j) in
  let Cxy := grid (fun i j => w i j * (INR j - Mx) * (INR i - My)) in
  {| m00 := grid (fun i j => w i j * (INR j - Mx) ^ 2);
     m01 := Cxy; m10 := Cxy;
     m11 := grid (fun i j => w i j * (INR i - My) ^ 2) |}.

(** The volume invariant of the data model: no negative intensity. *)
Definition non_negative (a : array3) : Prop :=
  forall i j k, (i < nrows a)%nat -> (j < ncols a)%nat -> (k < depth a)%nat ->
                0 <= data3 a i j k.

(** The first column of the eigenvector matrix holds finite components that
    are not both zero (NumPy returns eigenvectors of unit length). *)
Definition first_column_nonzero (V : mat2 float64) : Prop :=
  exists s0 a0 s1 a1,
    m00 V = FNum s0 a0 /\ m10 V = FNum s1 a1 /\
    0 <= a0 /\ 0 <= a1 /\ (a0 <> 0 \/ a1 <> 0).

(* ================================================================== *)
(** ** Parameter validation *)
(* ================================================================== *)

Definition Rleb (a b : R) : bool := if Rle_dec a b then true else false.

(** The real number a finite [float64] stands for. *)
Definition fvalue (neg : bool) (mag : R) : R := if neg then - mag else mag.

(** [x <= c] on a Python float: false on NaN. *)
Definition fle (x : float64) (c : R) : bool :=
  match x with
  | FNum s m => Rleb (fvalue s m) c
  | FInf s => s
  | FNaN => false
  end.

(** [x > c] on a Python float: false on NaN. *)
Definition fgt (x : float64) (c : R) : bool :=
  match x with
  | FNum s m => Rltb c (fvalue s m)
  | FInf s => negb s
  | FNaN => false
  end.

(** [validate_parameters] of [image_processor.py]. *)
Definition validate_parameters (voxel_size_x voxel_size_y voxel_size_z : float64)
  : bool * String.string :=
  if fle voxel_size_x 0 || fle voxel_size_y 0 || fle voxel_size_z 0 then
    (false, "All voxel sizes must be positive"%string)
  else if fgt voxel_size_x 10 || fgt voxel_size_y 10 then
    (false, "XY voxel sizes > 10µm seem unusual. Please verify your calibration."%string)
  else if fgt voxel_size_z 50 then
    (false, "Z voxel size > 50µm seems unusual. Please verify your z-step."%string)
  else (true, ""%string).

(** [Config.MAX_VOXEL_SIZE_XY] and [Config.MAX_VOXEL_SIZE_Z]; the f-strings
    of [validate_voxel_sizes] print them as [10.0] and [50.0]. *)
Definition MAX_VOXEL_SIZE_XY : R := 10.
Definition MAX_VOXEL_SIZE_Z : R := 50.

(** [sep.join(l)] *)
Fixpoint join (sep : String.string) (l : list String.string) : String.string :=
  match l with
  | [] => ""%string
  | [x] => x
  | x :: rest => String.append x (String.append sep (join sep rest))
  end.

(** [validate_voxel_sizes] of [config.py]. *)
Definition validate_voxel_sizes (voxel_x voxel_y voxel_z : float64)
  : bool * String.string :=
  if fle voxel_x 0 || fle voxel_y 0 || fle voxel_z 0 then
    (false, "All voxel sizes must be positive numbers"%string)
  else
    let warnings :=
      (if fgt voxel_x MAX_VOXEL_SIZE_XY || fgt voxel_y MAX_VOXEL_SIZE_XY
       then ["XY voxel size exceeds 10.0µm (unusual for confocal microscopy)"%string]
       else [])
      ++ (if fgt voxel_z MAX_VOXEL_SIZE_Z
          then ["Z voxel size exceeds 50.0µm (very large Z-step)"%string]
          else []) in
    match warnings with
    | [] => (true, ""%string)
    | _ :: _ => (false, join " | "%string warnings)
    end.

(* ================================================================== *)
(** ** The caller: Z range and masked stacks ([MorphoScope.py]) *)
(* ================================================================== *)

(** What [_validate_processing_parameters] reads.  An attribute that is
    missing or [None] is [None]; a line edit holds the result of [float(text)],
    [None] when [float] raises [ValueError]; the spin boxes hold integers from
    0 to 99 (the range of a [QSpinBox] that is not configured).  The stacks
    are in (Z, Y, X) order: axis 0 is the slice. *)
Record ProcessingState : Type := {
  complexity_channel : option array3;
  fluor_channel : option array3;
  polygon_points : option (list (R * R));
  AArea : option float64;
  spinBox_zmin : nat;
  spinBox_zmax : nat;
  lineEdit_pixel_size_X : option float64;
  lineEdit_pixel_size_Y : option float64;
  lineEdit_pixel_size_Z : option float64
}.

(** The warning dialogs of [_validate_processing_parameters]. *)
Inductive warning : Type :=
| No_Image
| No_ROI
| Invalid_ROI
| Invalid_Z_Range_start_not_below_end
| Invalid_Z_Range_end_exceeds_depth
| Invalid_Voxel_Size_not_positive
| Invalid_Voxel_Size_not_numeric.

(** [_validate_processing_parameters]: [None] when it returns [True], the
    dialog it shows when it returns [False]. *)
Definition _validate_processing_parameters (self : ProcessingState) : option warning :=
  match complexity_channel self with
  | None => Some No_Image
  | Some channel =>
      match polygon_points self with
      | None => Some No_ROI
      | Some points =>
          if (length points <? 3)%nat then Some No_ROI
          else
            match AArea self with
            | None => Some Invalid_ROI
            | Some area =>
                if fle area 0 then Some Invalid_ROI
                else
                  let z_start := spinBox_zmin self in
                  let z_end := spinBox_zmax self in
                  if (z_end <=? z_start)%nat then Some Invalid_Z_Range_start_not_below_end
                  else if (nrows channel <? z_end)%nat
                       then Some Invalid_Z_Range_end_exceeds_depth
                  else
                    match lineEdit_pixel_size_X self, lineEdit_pixel_size_Y self,
                          lineEdit_pixel_size_Z self with
                    | Some voxel_x, Some voxel_y, Some voxel_z =>
                        if fle voxel_x 0 || fle voxel_y 0 || fle voxel_z 0
                        then Some Invalid_Voxel_Size_not_positive
                        else None
                    | _, _, _ => Some Invalid_Voxel_Size_not_numeric
                    end
            end
      end
  end.

(** [channel[z_start:z_end+1, :, :]]: a slice that runs past the end of the
    axis is cut at the end, one that starts past it is empty. *)
Definition z_subset (channel : array3) (z_start z_end : nat) : array3 :=
  {| shape3 := ((Nat.min (z_end + 1) (nrows channel) - z_start)%nat,
                ncols channel, depth channel);
     data3 := fun i j k => data3 channel (z_start + i) j k |}.

(** [_prepare_masked_images]: the Z range of the complexity channel and of
    the fluorescence channel, when there is one. *)
Definition _prepare_masked_images (self : ProcessingState) (z_start z_end : nat)
  : option array3 * option array3 :=
  match complexity_channel self with
  | None => (None, None)
  | Some channel =>
      (Some (z_subset channel z_start z_end),
       option_map (fun f => z_subset f z_start z_end) (fluor_channel self))
  end.

(** A state with a stack of five slices and the Z range 1..3. *)
Definition example_state : ProcessingState :=
  {| complexity_channel := Some (full 5 4 4 1);
     fluor_channel := None;
     polygon_points := Some [(0, 0); (2, 0); (0, 2)];
     AArea := Some (of_R 2);
     spinBox_zmin := 1;
     spinBox_zmax := 3;
     lineEdit_pixel_size_X := Some (of_R 1);
     lineEdit_pixel_size_Y := Some (of_R 1);
     lineEdit_pixel_size_Z := Some (of_R 1) |}.

(** [a.transpose(1, 0, 2)]: rows and columns exchanged. *)
Definition swap_rows_columns (a : array3) : array3 :=
  {| shape3 := (ncols a, nrows a, depth a);
     data3 := fun i j k => data3 a j i k |}.

(** A finite, non-negative scalar: neither NaN nor an infinity. *)
Definition finite_nonneg (x : float64) : Prop := exists m, x = FNum false m /\ 0 <= m.

(** A variance entry that is NaN or non-negative. *)
Definition nan_or_nonneg (v : nanable) : Prop :=
  match v with
  | Some r => 0 <= r
  | None => True
  end.

(** A variance entry that is NaN or zero. *)
Definition nan_or_zero (v : nanable) : Prop :=
  match v with
  | Some r => r = 0
  | None => True
  end.

(** The ten spreads of a record are finite and non-negative. *)
Definition spreads_finite (r : SpreadResult) : Prop :=
  finite_nonneg (spread_x_pixel r) /\ finite_nonneg (spread_y_pixel r) /\
  finite_nonneg (spread_z_pixel r) /\ finite_nonneg (spread_xy_pixel r) /\
  finite_nonneg (spread_xyz_pixel r) /\
  finite_nonneg (spread_x_um r) /\ finite_nonneg (spread_y_um r) /\
  finite_nonneg (spread_z_um r) /\ finite_nonneg (spread_xy_um r) /\
  finite_nonneg (spread_xyz_um r).

(* ------------------------------------------------------------------ *)
(** *** Facts about the scalars *)

Lemma Rltb_true a b : a < b -> Rltb a b = true.
Proof. intros H; unfold Rltb; destruct (Rlt_dec a b); [reflexivity | contradiction]. Qed.

Lemma Rltb_false a b : b <= a -> Rltb a b = false.
Proof. intros H; unfold Rltb; destruct (Rlt_dec a b); [lra | reflexivity]. Qed.

Lemma Reqb_true a b : a = b -> Reqb a b = true.
Proof. intros H; unfold Reqb; destruct (Req_dec_T a b); [reflexivity | contradiction]. Qed.

Lemma Reqb_false a b : a <> b -> Reqb a b = false.
Proof. intros H; unfold Reqb; destruct (Req_dec_T a b); [contradiction | reflexivity]. Qed.

Lemma of_R_nonneg r : 0 <= r -> of_R r = FNum false r.
Proof.
  intros H; unfold of_R.
  rewrite Rltb_false by assumption.
  now rewrite Rabs_pos_eq.
Qed.

Lemma of_R_neg r : r < 0 -> of_R r = FNum true (- r).
Proof.
  intros H; unfold of_R.
  rewrite Rltb_true by assumption.
  now rewrite Rabs_left.
Qed.

Lemma of_R_wf r : float_wf (of_R r).
Proof. simpl; apply Rabs_pos. Qed.

Lemma floor_unique (x : R) (z : Z) : IZR z <= x < IZR z + 1 -> Int_part x = z.
Proof.
  intros [H1 H2]; symmetry; apply Int_part_spec; lra.
Qed.

(** [rint] is the integer within one half, when there is no tie. *)
Lemma rint_unique (x : R) (z : Z) : Rabs (x - IZR z) < 1 / 2 -> rint x = z.
Proof.
  intros H. apply Rabs_def2 in H. destruct H as [Hu Hl].
  unfold rint.
  destruct (Rle_lt_dec (IZR z) x) as [Hz | Hz].
  - rewrite (floor_unique x z) by lra.
    destruct (Rlt_dec (x - IZR z) (1 / 2)); [reflexivity | lra].
  - rewrite (floor_unique x (z - 1)) by (rewrite minus_IZR; lra).
    rewrite minus_IZR.
    destruct (Rlt_dec (x - (IZR z - 1)) (1 / 2)); [lra |].
    destruct (Rlt_dec (1 / 2) (x - (IZR z - 1))); [f_equal; lia | lra].
Qed.

Lemma rint_IZR (z : Z) : rint (IZR z) = z.
Proof. apply rint_unique. rewrite Rminus_diag, Rabs_R0. lra. Qed.

Lemma round2_0 : round2 0 = 0.
Proof.
  unfold round2. rewrite Rmult_0_l.
  change 0 with (IZR 0) at 1. rewrite rint_IZR. lra.
Qed.

(** A magnitude within half a hundredth of [z/100] rounds to [z/100]. *)
Lemma round2_unique (m : R) (z : Z) :
  Rabs (m * 100 - IZR z) < 1 / 2 -> round2 m = IZR z / 100.
Proof. intros H; unfold round2; now rewrite (rint_unique _ z). Qed.

Lemma fround2_fzero : fround2 fzero = fzero.
Proof. unfold fzero; simpl; now rewrite round2_0. Qed.

Lemma of_R_0 : of_R 0 = fzero.
Proof. unfold fzero; apply of_R_nonneg; lra. Qed.

Lemma fdiv_of_R (a b : R) : 0 < b -> fdiv (of_R a) (of_R b) = of_R (a / b).
Proof.
  intros Hb. rewrite (of_R_nonneg b) by lra.
  assert (Hinv : 0 < / b) by now apply Rinv_0_lt_compat.
  destruct (Rlt_dec a 0) as [Ha | Ha].
  - rewrite (of_R_neg a) by assumption.
    rewrite (of_R_neg (a / b)) by (unfold Rdiv; nra).
    simpl. rewrite Reqb_false by lra. f_equal. unfold Rdiv; ring.
  - rewrite (of_R_nonneg a) by lra.
    rewrite (of_R_nonneg (a / b)) by (unfold Rdiv; nra).
    simpl. now rewrite Reqb_false by lra.
Qed.

(** Scaling the second factor by [k > 0] scales the product by [k]. *)
Lemma fmul_of_R_scale (x : float64) (v k : R) :
  0 < k -> fmul x (of_R (k * v)) = fmul (fmul x (of_R v)) (of_R k).
Proof.
  intros Hk. rewrite (of_R_nonneg k) by lra.
  assert (Hs : Rltb (k * v) 0 = Rltb v 0).
  { destruct (Rlt_dec v 0).
    - rewrite !Rltb_true; [reflexivity | assumption | nra].
    - rewrite !Rltb_false; [reflexivity | lra | nra]. }
  assert (Hm : Rabs (k * v) = Rabs v * k).
  { rewrite Rabs_mult, (Rabs_pos_eq k) by lra. ring. }
  unfold of_R. rewrite Hs, Hm.
  destruct x as [s m | s |]; simpl.
  - rewrite xorb_false_r. f_equal. ring.
  - destruct (Req_dec_T (Rabs v) 0) as [E | E].
    + rewrite E, Rmult_0_l, Reqb_true by reflexivity. reflexivity.
    + rewrite (Reqb_false (Rabs v * k)) by nra.
      rewrite (Reqb_false (Rabs v)) by assumption.
      simpl. rewrite (Reqb_false k) by lra.
      now rewrite xorb_false_r.
  - reflexivity.
Qed.

(* ------------------------------------------------------------------ *)
(** *** Facts about sums *)

Lemma sum_over_ext (n : nat) (f g : nat -> R) :
  (forall i, (i < n)%nat -> f i = g i) -> sum_over n f = sum_over n g.
Proof.
  intros H. unfold sum_over. f_equal. apply map_ext_in.
  intros i Hi. apply in_seq in Hi. apply H. lia.
Qed.

Lemma Rsum_app (l1 l2 : list R) : Rsum (l1 ++ l2) = Rsum l1 + Rsum l2.
Proof. induction l1 as [| a l IH]; simpl; [ring | rewrite IH; ring]. Qed.

Lemma sum_over_S (n : nat) (f : nat -> R) : sum_over (S n) f = sum_over n f + f n.
Proof.
  unfold sum_over. rewrite seq_S, map_app, Rsum_app. simpl. ring.
Qed.

Lemma sum_over_0 (f : nat -> R) : sum_over 0 f = 0.
Proof. reflexivity. Qed.

Lemma sum_over_scal (n : nat) (c : R) (f : nat -> R) :
  sum_over n (fun i => c * f i) = c * sum_over n f.
Proof.
  induction n as [| n IH]; [rewrite !sum_over_0; ring |].
  rewrite !sum_over_S, IH. ring.
Qed.

Lemma sum_over_plus (n : nat) (f g : nat -> R) :
  sum_over n (fun i => f i + g i) = sum_over n f + sum_over n g.
Proof.
  induction n as [| n IH]; [rewrite !sum_over_0; ring |].
  rewrite !sum_over_S, IH. ring.
Qed.

Lemma sum_over_const_0 (n : nat) : sum_over n (fun _ => 0) = 0.
Proof.
  induction n as [| n IH]; [reflexivity | rewrite sum_over_S, IH; ring].
Qed.

Lemma sum_over_zero (n : nat) (f : nat -> R) :
  (forall i, (i < n)%nat -> f i = 0) -> sum_over n f = 0.
Proof.
  intros H. rewrite (sum_over_ext n f (fun _ => 0)) by assumption.
  apply sum_over_const_0.
Qed.

(** Exchange of two summations. *)
Lemma sum_over_swap (n m : nat) (f : nat -> nat -> R) :
  sum_over n (fun i => sum_over m (fun j => f i j)) =
  sum_over m (fun j => sum_over n (fun i => f i j)).
Proof.
  induction n as [| n IH].
  - rewrite sum_over_0. symmetry. apply sum_over_zero. intros; apply sum_over_0.
  - rewrite sum_over_S, IH, <- sum_over_plus.
    apply sum_over_ext. intros j _. now rewrite sum_over_S.
Qed.

Lemma sum_over_nonneg (n : nat) (f : nat -> R) :
  (forall i, (i < n)%nat -> 0 <= f i) -> 0 <= sum_over n f.
Proof.
  induction n as [| n IH]; intros H; [rewrite sum_over_0; lra |].
  rewrite sum_over_S.
  assert (0 <= sum_over n f) by (apply IH; intros; apply H; lia).
  assert (0 <= f n) by (apply H; lia). lra.
Qed.

(** A sum of non-negative terms is zero only when every term is. *)
Lemma sum_over_nonneg_zero (n : nat) (f : nat -> R) :
  (forall i, (i < n)%nat -> 0 <= f i) -> sum_over n f = 0 ->
  forall i, (i < n)%nat -> f i = 0.
Proof.
  induction n as [| n IH]; intros Hpos Hsum i Hi; [lia |].
  rewrite sum_over_S in Hsum.
  assert (H1 : 0 <= sum_over n f) by (apply sum_over_nonneg; intros; apply Hpos; lia).
  assert (H2 : 0 <= f n) by (apply Hpos; lia).
  destruct (Nat.eq_dec i n) as [-> | Hne]; [lra |].
  apply IH; [intros; apply Hpos; lia | lra | lia].
Qed.

Lemma any_over_false (n : nat) (p : nat -> bool) :
  any_over n p = false <-> forall i, (i < n)%nat -> p i = false.
Proof.
  unfold any_over. split.
  - intros H i Hi.
    destruct (p i) eqn:E; [| reflexivity].
    assert (existsb p (seq 0 n) = true) as Ht.
    { apply existsb_exists. exists i. split; [apply in_seq; lia | assumption]. }
    congruence.
  - intros H. destruct (existsb p (seq 0 n)) eqn:E; [| reflexivity].
    apply existsb_exists in E. destruct E as [i [Hi Hp]].
    apply in_seq in Hi. rewrite H in Hp by lia. discriminate.
Qed.

Lemma any_over_true (n : nat) (p : nat -> bool) :
  any_over n p = true <-> exists i, (i < n)%nat /\ p i = true.
Proof.
  unfold any_over. rewrite existsb_exists. split.
  - intros [i [Hi Hp]]. apply in_seq in Hi. exists i. split; [lia | assumption].
  - intros [i [Hi Hp]]. exists i. split; [apply in_seq; lia | assumption].
Qed.

Lemma any_negative_false (a : array3) :
  any_negative a = false <-> non_negative a.
Proof.
  unfold any_negative, non_negative. split.
  - intros H i j k Hi Hj Hk.
    rewrite any_over_false in H. specialize (H i Hi).
    rewrite any_over_false in H. specialize (H j Hj).
    rewrite any_over_false in H. specialize (H k Hk).
    unfold Rltb in H. destruct (Rlt_dec (data3 a i j k) 0); [discriminate | lra].
  - intros H. apply any_over_false. intros i Hi.
    apply any_over_false. intros j Hj.
    apply any_over_false. intros k Hk.
    apply Rltb_false. now apply H.
Qed.

Lemma any_negative_true (a : array3) :
  any_negative a = true <->
  exists i j k, (i < nrows a)%nat /\ (j < ncols a)%nat /\ (k < depth a)%nat /\
                data3 a i j k < 0.
Proof.
  unfold any_negative. rewrite any_over_true. split.
  - intros [i [Hi H]]. apply any_over_true in H. destruct H as [j [Hj H]].
    apply any_over_true in H. destruct H as [k [Hk H]].
    exists i, j, k. repeat split; try assumption.
    unfold Rltb in H. destruct (Rlt_dec (data3 a i j k) 0); [assumption | discriminate].
  - intros [i [j [k [Hi [Hj [Hk H]]]]]].
    exists i. split; [assumption |]. apply any_over_true.
    exists j. split; [assumption |]. apply any_over_true.
    exists k. split; [assumption |]. now apply Rltb_true.
Qed.

(* ================================================================== *)
(** ** The aggregator on a profile without signal *)
(* ================================================================== *)

(** C10: when the total of the intensity-sum profile is zero,
    [calculate_global_spreads] returns the record of
    [_get_empty_results], whose retained profile fields [MMsum], [MMyy],
    [MMzz] are empty arrays: they are not the caller's sequences, and for a
    non-empty input profile they do not have its length. *)
Theorem global_spreads_empty_profile_C10
    (vx vy vz : R) (sums : list R) (vyy vzz : list nanable) (xx00 : list R) :
  Rsum sums = 0 ->
  let r := calculate_global_spreads vx vy vz sums vyy vzz xx00 in
  MMsum r = [] /\ MMyy r = [] /\ MMzz r = [] /\
  (sums <> [] -> length (MMsum r) <> length sums /\ MMsum r <> sums).
Proof.
  intros Hz r. subst r. unfold calculate_global_spreads.
  destruct (Req_dec_T (Rsum sums) 0) as [_ | Hne]; [| contradiction].
  simpl. repeat split; try reflexivity.
  - destruct sums; [congruence | simpl; discriminate].
  - destruct sums; [congruence | discriminate].
Qed.

Lemma global_spreads_empty_profile_C10_witness :
  Rsum [0; 0; 0] = 0 /\
  MMsum (calculate_global_spreads 1 1 1 [0; 0; 0] [None; None; None]
           [None; None; None] [1; 2; 3]) = [].
Proof.
  assert (H : Rsum [0; 0; 0] = 0) by (simpl; lra).
  split; [exact H |].
  exact (proj1 (global_spreads_empty_profile_C10 1 1 1 [0; 0; 0] [None; None; None]
                  [None; None; None] [1; 2; 3] H)).
Defined.

(* ================================================================== *)
(** ** Fluorescence *)
(* ================================================================== *)

Lemma sum3_full_111 (v : R) : sum3 (full 1 1 1 v) = v.
Proof. unfold sum3, sum_over; simpl; ring. Qed.

(** C5, as stated, fails: for the one-voxel volume of intensity 1 and a
    region area of 3, the per-pixel value returned is 0.33, not 1/3. *)
Lemma fluorescence_not_exact_quotient_C5 :
  fst (calculate_fluorescence 1 1 (full 1 1 1 1) 3) = FNum false (33 / 100) /\
  fst (calculate_fluorescence 1 1 (full 1 1 1 1) 3)
  <> of_R (sum3 (full 1 1 1 1) / 3).
Proof.
  assert (E : fst (calculate_fluorescence 1 1 (full 1 1 1 1) 3) = FNum false (33 / 100)).
  { unfold calculate_fluorescence. cbv zeta. unfold fst.
    rewrite sum3_full_111, fdiv_of_R by lra.
    rewrite of_R_nonneg by lra. simpl. f_equal.
    apply (round2_unique _ 33). apply Rabs_def1; lra. }
  split; [exact E |].
  rewrite E, sum3_full_111, of_R_nonneg by lra.
  intros H. injection H as H. lra.
Qed.

(** C5, amended: for a strictly positive region area and strictly positive
    voxel sizes, the values returned are the total intensity divided by the
    area, and the total divided by (area x voxelX x voxelY), each rounded
    to two decimals. *)
Theorem fluorescence_rounded_quotient_C5
    (vx vy : R) (image_3d : array3) (area : R) :
  0 < area -> 0 < vx -> 0 < vy ->
  calculate_fluorescence vx vy image_3d area =
  (fround2 (of_R (sum3 image_3d / area)),
   fround2 (of_R (sum3 image_3d / (area * vx * vy)))).
Proof.
  intros Ha Hx Hy. unfold calculate_fluorescence. cbv zeta.
  assert (Hxy : 0 < area * (vx * vy)) by (apply Rmult_lt_0_compat; nra).
  rewrite !fdiv_of_R by assumption.
  replace (area * (vx * vy)) with (area * vx * vy) by ring.
  reflexivity.
Qed.

Lemma fluorescence_rounded_quotient_C5_witness :
  calculate_fluorescence 1 1 (full 1 1 1 1) 3 =
  (fround2 (of_R (sum3 (full 1 1 1 1) / 3)),
   fround2 (of_R (sum3 (full 1 1 1 1) / (3 * 1 * 1)))).
Proof.
  apply (fluorescence_rounded_quotient_C5 1 1 (full 1 1 1 1) 3); lra.
Defined.

(* ================================================================== *)
(** ** Voxel sizes and the physical spreads *)
(* ================================================================== *)

Lemma gapped_total : Rsum gapped_sums = 2.
Proof. unfold gapped_sums; simpl; lra. Qed.

Lemma gapped_spread_x_px : spread_x_px gapped_sums gapped_xx00 = FNum false 1.
Proof.
  unfold spread_x_px. rewrite gapped_total.
  unfold gapped_sums, gapped_xx00. cbn [map2 Rsum fold_right].
  match goal with |- fsqrt (of_R ?e) = _ => replace e with 1 by field end.
  rewrite of_R_nonneg by lra. simpl. now rewrite sqrt_1.
Qed.

(** C7, as stated, fails: on this profile, with a voxel size of 0.004 along
    X, the returned physical X spread is 0.0; with the voxel size doubled
    it is 0.01, which is not twice 0.0. *)
Lemma physical_spread_not_scaled_C7 :
  spread_x_um (calculate_global_spreads (4 / 1000) 1 1
                 gapped_sums gapped_vars gapped_vars gapped_xx00) = FNum false 0 /\
  spread_x_um (calculate_global_spreads (2 * (4 / 1000)) 1 1
                 gapped_sums gapped_vars gapped_vars gapped_xx00) = FNum false (1 / 100) /\
  spread_x_um (calculate_global_spreads (2 * (4 / 1000)) 1 1
                 gapped_sums gapped_vars gapped_vars gapped_xx00)
  <> fmul (spread_x_um (calculate_global_spreads (4 / 1000) 1 1
                 gapped_sums gapped_vars gapped_vars gapped_xx00)) (of_R 2).
Proof.
  assert (E1 : spread_x_um (calculate_global_spreads (4 / 1000) 1 1
                 gapped_sums gapped_vars gapped_vars gapped_xx00) = FNum false 0).
  { unfold calculate_global_spreads.
    destruct (Req_dec_T (Rsum gapped_sums) 0) as [E | _];
      [rewrite gapped_total in E; lra |].
    cbv zeta. unfold spread_x_um.
    rewrite gapped_spread_x_px, of_R_nonneg by lra. simpl. f_equal.
    transitivity (IZR 0 / 100); [| lra].
    apply round2_unique. apply Rabs_def1; lra. }
  assert (E2 : spread_x_um (calculate_global_spreads (2 * (4 / 1000)) 1 1
                 gapped_sums gapped_vars gapped_vars gapped_xx00)
               = FNum false (1 / 100)).
  { unfold calculate_global_spreads.
    destruct (Req_dec_T (Rsum gapped_sums) 0) as [E | _];
      [rewrite gapped_total in E; lra |].
    cbv zeta. unfold spread_x_um.
    rewrite gapped_spread_x_px, of_R_nonneg by lra. simpl. f_equal.
    apply (round2_unique _ 1). apply Rabs_def1; lra. }
  split; [exact E1 |]. split; [exact E2 |].
  rewrite E1, E2, of_R_nonneg by lra. simpl.
  intros H. injection H as H. lra.
Qed.

(** C7, amended: for a profile with non-zero total and [k > 0], scaling one
    axis's voxel size by [k] leaves every pixel-unit spread unchanged, and
    the returned physical spread of that axis is the two-decimal rounding
    of (unrounded pixel spread x voxel size x k): the physical spread
    scales by exactly [k] before the rounding of the result record. *)
Theorem physical_spread_scaling_C7
    (vx vy vz k : R) (sums : list R) (vyy vzz : list nanable) (xx00 : list R) :
  0 < k -> Rsum sums <> 0 ->
  let r := calculate_global_spreads vx vy vz sums vyy vzz xx00 in
  let rx := calculate_global_spreads (k * vx) vy vz sums vyy vzz xx00 in
  let ry := calculate_global_spreads vx (k * vy) vz sums vyy vzz xx00 in
  let rz := calculate_global_spreads vx vy (k * vz) sums vyy vzz xx00 in
  let sx := spread_x_px sums xx00 in
  let sy := spread_transverse_px sums vyy in
  let sz := spread_transverse_px sums vzz in
  (pixel_spreads rx = pixel_spreads r /\ pixel_spreads ry = pixel_spreads r /\
   pixel_spreads rz = pixel_spreads r) /\
  (spread_x_um r = fround2 (fmul sx (of_R vx)) /\
   spread_x_um rx = fround2 (fmul (fmul sx (of_R vx)) (of_R k))) /\
  (spread_y_um r = fround2 (fmul sy (of_R vy)) /\
   spread_y_um ry = fround2 (fmul (fmul sy (of_R vy)) (of_R k))) /\
  (spread_z_um r = fround2 (fmul sz (of_R vz)) /\
   spread_z_um rz = fround2 (fmul (fmul sz (of_R vz)) (of_R k))).
Proof.
  intros Hk Hne r rx ry rz sx sy sz.
  subst r rx ry rz sx sy sz. unfold calculate_global_spreads.
  destruct (Req_dec_T (Rsum sums) 0) as [E | _]; [contradiction |].
  cbv zeta. simpl.
  split.
  - repeat split; reflexivity.
  - rewrite <- !fmul_of_R_scale by assumption. repeat split; reflexivity.
Qed.

Lemma physical_spread_scaling_C7_witness :
  spread_x_um (calculate_global_spreads (2 * (4 / 1000)) 1 1
                 gapped_sums gapped_vars gapped_vars gapped_xx00)
  = fround2 (fmul (fmul (spread_x_px gapped_sums gapped_xx00) (of_R (4 / 1000)))
               (of_R 2)).
Proof.
  assert (Hk : 0 < 2) by lra.
  assert (Hne : Rsum gapped_sums <> 0) by (rewrite gapped_total; lra).
  exact (proj2 (proj1 (proj2 (physical_spread_scaling_C7 (4 / 1000) 1 1 2
           gapped_sums gapped_vars gapped_vars gapped_xx00 Hk Hne)))).
Defined.

(* ================================================================== *)
(** ** The rotation angle *)
(* ================================================================== *)

Lemma PI_neq_0 : PI <> 0.
Proof. pose proof PI_RGT_0; lra. Qed.

Lemma of_R_PI : of_R PI = FNum false PI.
Proof. apply of_R_nonneg. pose proof PI_RGT_0; lra. Qed.

Lemma of_R_180 : of_R 180 = FNum false 180.
Proof. apply of_R_nonneg; lra. Qed.

(** A zero denominator: the quotient is an infinity, its arctangent a
    quarter turn. *)
Lemma arctan_degrees_zero_denominator (s0 s1 : bool) (a1 : R) :
  a1 <> 0 -> arctan_degrees (FNum s1 a1) (FNum s0 0) = FNum (xorb s1 s0) 90.
Proof.
  intros H1. unfold arctan_degrees, farctan_quotient_degrees. rewrite of_R_PI, of_R_180.
  simpl. rewrite (Reqb_true 0 0), (Reqb_false a1 0) by auto.
  simpl. rewrite (Reqb_false PI 0) by apply PI_neq_0.
  rewrite !xorb_false_r. f_equal. field. apply PI_neq_0.
Qed.

(** A non-zero denominator: the arctangent of the quotient of the
    magnitudes, with the sign of the quotient. *)
Lemma arctan_degrees_finite (s0 s1 : bool) (a0 a1 : R) :
  a0 <> 0 ->
  arctan_degrees (FNum s1 a1) (FNum s0 a0)
  = FNum (xorb s1 s0) (atan (a1 / a0) * 180 / PI).
Proof.
  intros H0. unfold arctan_degrees, farctan_quotient_degrees. rewrite of_R_PI, of_R_180.
  simpl. rewrite (Reqb_false a0 0) by assumption.
  simpl. rewrite (Reqb_false PI 0) by apply PI_neq_0.
  now rewrite !xorb_false_r.
Qed.

Lemma atan_degrees_bound (x : R) : 0 <= x -> 0 <= atan x * 180 / PI < 90.
Proof.
  intros Hx. pose proof PI_RGT_0 as Hpi. pose proof (atan_bound x) as [_ Hb].
  assert (Ha : 0 <= atan x).
  { destruct Hx as [Hx | <-]; [| rewrite atan_0; lra].
    apply atan_increasing in Hx. rewrite atan_0 in Hx. lra. }
  assert (Hinv : 0 < / PI) by now apply Rinv_0_lt_compat.
  split.
  - unfold Rdiv. apply Rmult_le_pos; [nra | lra].
  - apply Rmult_lt_reg_r with PI; [assumption |].
    unfold Rdiv. rewrite Rmult_assoc, Rinv_l by lra. lra.
Qed.

(** The vector (1, 0) stands at 0 degrees. *)
Lemma arctan_degrees_unit_x : arctan_degrees fzero (FNum false 1) = fzero.
Proof.
  unfold fzero. rewrite arctan_degrees_finite by lra. simpl. f_equal.
  replace (0 / 1) with 0 by field. rewrite atan_0. field. apply PI_neq_0.
Qed.

(** With the identity as eigenvectors the angle is 0.0, whatever the
    volume. *)
Lemma pca_angle_identity_eigenvectors (image_yxz : array3) :
  calculate_pca_rotation_angle eig_of_diagonal image_yxz = fzero.
Proof.
  unfold calculate_pca_rotation_angle.
  destruct (Req_dec_T _ 0); [reflexivity | apply arctan_degrees_unit_x].
Qed.

(** The angle computed from the components of a non-zero vector is a finite
    value of magnitude at most 90. *)
Lemma arctan_degrees_range (V : mat2 float64) :
  first_column_nonzero V ->
  exists s m, arctan_degrees (m10 V) (m00 V) = FNum s m /\ 0 <= m <= 90.
Proof.
  intros (s0 & a0 & s1 & a1 & E0 & E1 & H0 & H1 & Hnz).
  rewrite E0, E1.
  destruct (Req_dec_T a0 0) as [-> | Hne].
  - exists (xorb s1 s0), 90. split; [| lra].
    apply arctan_degrees_zero_denominator. destruct Hnz; [lra | assumption].
  - exists (xorb s1 s0), (atan (a1 / a0) * 180 / PI).
    split; [now apply arctan_degrees_finite |].
    assert (0 <= a1 / a0).
    { unfold Rdiv. apply Rmult_le_pos; [assumption |].
      apply Rlt_le, Rinv_0_lt_compat. lra. }
    pose proof (atan_degrees_bound (a1 / a0)). lra.
Qed.

(** C9: the rotation angle is a finite number of degrees in [-90, 90]: it
    is 0.0 when the projection sums to zero; otherwise, for a decomposition
    whose first eigenvector is finite and not the zero vector, its
    magnitude is at most 90, and it is exactly 90 when the denominator
    component of that eigenvector is zero. *)
Theorem pca_angle_range_C9 (eig : mat2 R -> eig_result) (image_yxz : array3) :
  (sum_grid image_yxz (projection_z image_yxz) <> 0 ->
   first_column_nonzero (eigenvectors (eig (cov_matrix image_yxz)))) ->
  (exists s m, calculate_pca_rotation_angle eig image_yxz = FNum s m /\ 0 <= m <= 90) /\
  (sum_grid image_yxz (projection_z image_yxz) = 0 ->
   calculate_pca_rotation_angle eig image_yxz = fzero) /\
  (sum_grid image_yxz (projection_z image_yxz) <> 0 ->
   forall s0, m00 (eigenvectors (eig (cov_matrix image_yxz))) = FNum s0 0 ->
   exists s, calculate_pca_rotation_angle eig image_yxz = FNum s 90).
Proof.
  intros HV. unfold calculate_pca_rotation_angle.
  destruct (Req_dec_T (sum_grid image_yxz (projection_z image_yxz)) 0) as [E | E].
  - split; [| split].
    + exists false, 0. split; [reflexivity | lra].
    + reflexivity.
    + contradiction.
  - specialize (HV E). split; [| split].
    + now apply arctan_degrees_range.
    + contradiction.
    + intros _ s0 E0.
      destruct HV as (s0' & a0 & s1 & a1 & E0' & E1 & H0 & H1 & Hnz).
      rewrite E0 in E0'. injection E0' as <- <-.
      rewrite E0, E1. exists (xorb s1 s0).
      apply arctan_degrees_zero_denominator. destruct Hnz; [lra | assumption].
Qed.

Lemma sum_grid_column_volume :
  sum_grid column_volume (projection_z column_volume) = 3.
Proof. unfold sum_grid, projection_z, sum_over; simpl; ring. Qed.

Lemma pca_angle_range_C9_witness :
  exists s m, calculate_pca_rotation_angle eig_of_diagonal column_volume = FNum s m
              /\ 0 <= m <= 90.
Proof.
  apply (pca_angle_range_C9 eig_of_diagonal column_volume).
  intros _. exists false, 1, false, 0. simpl. unfold fzero.
  repeat split; try reflexivity; lra.
Defined.

(** C2, as stated, fails: the angle is the one-argument arctangent of the
    quotient of the components, not their two-argument arctangent.  For the
    unit vector [(-1, 0)] (an eigenvector is determined up to its sign) the
    code computes [arctan(0.0 / -1.0)], which is [-0.0], where the
    two-argument arctangent of [(0, -1)] is 180 degrees. *)
Lemma angle_is_not_arctan2_C2 :
  arctan_degrees fzero (FNum true 1) = FNum true 0 /\
  arctan2_degrees 0 (- 1) = 180 /\
  arctan_degrees fzero (FNum true 1) <> of_R (arctan2_degrees 0 (- 1)).
Proof.
  assert (E1 : arctan_degrees fzero (FNum true 1) = FNum true 0).
  { unfold fzero. rewrite arctan_degrees_finite by lra. simpl. f_equal.
    replace (0 / 1) with 0 by field. rewrite atan_0. field. apply PI_neq_0. }
  assert (E2 : arctan2_degrees 0 (- 1) = 180).
  { unfold arctan2_degrees.
    destruct (Rlt_dec 0 (- 1)); [lra |].
    destruct (Rlt_dec (- 1) 0); [| lra].
    destruct (Rle_dec 0 0); [| lra].
    replace (0 / - 1) with 0 by field. rewrite atan_0. field. apply PI_neq_0. }
  split; [exact E1 |]. split; [exact E2 |].
  rewrite E1, E2, of_R_nonneg by lra. discriminate.
Qed.

(** C2, amended: the angle is the one-argument arctangent of the quotient
    of the two components, and the quotient is a NumPy division, which
    yields an infinity instead of raising when the denominator is zero.
    So whenever the projection has a non-zero total and the selected
    eigenvector has a zero component (of either sign) along the reference
    axis and a non-zero other component, the function returns exactly
    +90 or -90 degrees. *)
Theorem pca_angle_zero_denominator_C2
    (eig : mat2 R -> eig_result) (image_yxz : array3) (s0 s1 : bool) (a1 : R) :
  sum_grid image_yxz (projection_z image_yxz) <> 0 ->
  m00 (eigenvectors (eig (cov_matrix image_yxz))) = FNum s0 0 ->
  m10 (eigenvectors (eig (cov_matrix image_yxz))) = FNum s1 a1 ->
  a1 <> 0 ->
  calculate_pca_rotation_angle eig image_yxz
  = farctan_quotient_degrees (FInf (xorb s1 s0)) /\
  calculate_pca_rotation_angle eig image_yxz = FNum (xorb s1 s0) 90.
Proof.
  intros Hs E0 E1 Ha. unfold calculate_pca_rotation_angle.
  destruct (Req_dec_T (sum_grid image_yxz (projection_z image_yxz)) 0) as [E | _];
    [contradiction |].
  rewrite E0, E1. split; [| now apply arctan_degrees_zero_denominator].
  unfold arctan_degrees, farctan_quotient_degrees. simpl.
  now rewrite (Reqb_true 0 0), (Reqb_false a1 0) by auto.
Qed.

(** The covariance matrix of the column volume is diagonal, with all the
    variance along the rows. *)
Lemma cov_matrix_column_volume :
  cov_matrix column_volume = {| m00 := 0; m01 := 0; m10 := 0; m11 := 2 / 3 |}.
Proof.
  unfold cov_matrix, sum_grid, projection_z, sum_over, column_volume, full.
  cbn [nrows ncols depth shape3 data3 fst snd seq map Rsum fold_right INR].
  f_equal; field.
Qed.

Lemma pca_angle_zero_denominator_C2_witness :
  calculate_pca_rotation_angle eig_of_diagonal_descending column_volume = FNum false 90.
Proof.
  assert (Hs : sum_grid column_volume (projection_z column_volume) <> 0)
    by (rewrite sum_grid_column_volume; lra).
  assert (HV : eigenvectors (eig_of_diagonal_descending (cov_matrix column_volume))
               = {| m00 := fzero; m01 := FNum false 1;
                    m10 := FNum false 1; m11 := fzero |}).
  { rewrite cov_matrix_column_volume. unfold eig_of_diagonal_descending. simpl.
    destruct (Rle_dec (2 / 3) 0); [lra | reflexivity]. }
  assert (E0 : m00 (eigenvectors (eig_of_diagonal_descending (cov_matrix column_volume)))
               = FNum false 0) by now rewrite HV.
  assert (E1 : m10 (eigenvectors (eig_of_diagonal_descending (cov_matrix column_volume)))
               = FNum false 1) by now rewrite HV.
  assert (Ha : 1 <> 0) by lra.
  exact (proj2 (pca_angle_zero_denominator_C2 eig_of_diagonal_descending column_volume
                  false false 1 Hs E0 E1 Ha)).
Defined.

(** The angle is computed from the first column of the eigenvector matrix
    alone: the eigenvalues are never read. *)
Lemma pca_angle_ignores_eigenvalues
    (eig eig' : mat2 R -> eig_result) (image_yxz : array3) :
  (forall M, eigenvectors (eig M) = eigenvectors (eig' M)) ->
  calculate_pca_rotation_angle eig image_yxz = calculate_pca_rotation_angle eig' image_yxz.
Proof.
  intros H. unfold calculate_pca_rotation_angle. now rewrite H.
Qed.

(** When the decomposition does list the larger eigenvalue first, the angle
    returned is the one the specification asks for. *)
Lemma pca_angle_principal_when_sorted
    (eig : mat2 R -> eig_result) (image_yxz : array3) :
  sum_grid image_yxz (projection_z image_yxz) <> 0 ->
  snd (eigenvalues (eig (cov_matrix image_yxz)))
  <= fst (eigenvalues (eig (cov_matrix image_yxz))) ->
  calculate_pca_rotation_angle eig image_yxz
  = principal_axis_angle_spec (eig (cov_matrix image_yxz)).
Proof.
  intros Hs Hle. unfold calculate_pca_rotation_angle, principal_axis_angle_spec.
  destruct (Req_dec_T _ 0) as [E | _]; [contradiction |].
  destruct (Rle_dec _ _) as [_ | Hn]; [reflexivity | contradiction].
Qed.

(** C1, evaluated on [np.ones((3, 1, 1))] with NumPy's decomposition of a
    diagonal matrix: the eigenvalues come back as (0, 2/3), so the larger
    one is the second, whose eigenvector (0, 1) stands at 90 degrees; the
    function reads the first column, (1, 0), and returns 0.0. *)
Theorem pca_angle_reads_first_column_C1 :
  eigenvalues (eig_of_diagonal (cov_matrix column_volume)) = (0, 2 / 3) /\
  principal_axis_angle_spec (eig_of_diagonal (cov_matrix column_volume)) = FNum false 90 /\
  calculate_pca_rotation_angle eig_of_diagonal column_volume = fzero /\
  calculate_pca_rotation_angle eig_of_diagonal column_volume
  <> principal_axis_angle_spec (eig_of_diagonal (cov_matrix column_volume)).
Proof.
  assert (Ev : eigenvalues (eig_of_diagonal (cov_matrix column_volume)) = (0, 2 / 3))
    by now rewrite cov_matrix_column_volume.
  assert (Es : principal_axis_angle_spec (eig_of_diagonal (cov_matrix column_volume))
               = FNum false 90).
  { unfold principal_axis_angle_spec. rewrite Ev. simpl.
    destruct (Rle_dec (2 / 3) 0); [lra |].
    unfold fzero. now rewrite arctan_degrees_zero_denominator by lra. }
  assert (Ec : calculate_pca_rotation_angle eig_of_diagonal column_volume = fzero).
  { unfold calculate_pca_rotation_angle.
    destruct (Req_dec_T (sum_grid column_volume (projection_z column_volume)) 0) as [E | _];
      [rewrite sum_grid_column_volume in E; lra |].
    apply arctan_degrees_unit_x. }
  repeat split; try assumption.
  rewrite Ec, Es. unfold fzero. intros H. injection H as H. lra.
Qed.

(* ================================================================== *)
(** ** Negative intensities *)
(* ================================================================== *)

Lemma any_negative_has_negative (a : array3) :
  any_negative a = true <-> has_negative a.
Proof. apply any_negative_true. Qed.

Lemma has_negative_to_yxz (a : array3) : has_negative a -> has_negative (to_yxz a).
Proof.
  intros (i & j & k & Hi & Hj & Hk & H). unfold to_yxz.
  destruct (nrows a <? depth a)%nat; [| now exists i, j, k].
  exists j, k, i. unfold transpose_120, nrows, ncols, depth in *. simpl. auto.
Qed.

Lemma count_over_pos (n : nat) (c : nat -> nat) (i : nat) :
  (i < n)%nat -> (0 < c i)%nat -> (0 < count_over n c)%nat.
Proof.
  unfold count_over. intros Hi Hc.
  assert (Hin : In i (seq 0 n)) by (apply in_seq; lia).
  induction (seq 0 n) as [| x l IH]; [contradiction |].
  simpl. destruct Hin as [-> | Hin]; [lia |].
  specialize (IH Hin). lia.
Qed.

(** The count reported by the error message is positive. *)
Lemma count_negative_pos (a : array3) : has_negative a -> (0 < count_negative a)%nat.
Proof.
  intros (i & j & k & Hi & Hj & Hk & H). unfold count_negative.
  apply (count_over_pos _ _ i Hi), (count_over_pos _ _ j Hj), (count_over_pos _ _ k Hk).
  rewrite Rltb_true by assumption. lia.
Qed.

Lemma process_image_negative_input
    (vx vy vz : R) (eig : mat2 R -> eig_result)
    (rs : nat * nat -> float64 -> nat * nat) (rd : array2 -> float64 -> nat -> nat -> R)
    (image_3d : array3) (area : R) :
  any_negative (to_yxz image_3d) = true ->
  process_image vx vy vz eig rs rd image_3d area
  = Raise (ValueError (Image_contains_negative_values (count_negative (to_yxz image_3d)))).
Proof. intros H. unfold process_image. now rewrite H. Qed.

Lemma process_image_negative_rotated
    (vx vy vz : R) (eig : mat2 R -> eig_result)
    (rs : nat * nat -> float64 -> nat * nat) (rd : array2 -> float64 -> nat -> nat -> R)
    (image_3d : array3) (area : R) (rot : array3) :
  any_negative (to_yxz image_3d) = false ->
  rotate_image rs rd (to_yxz image_3d) (calculate_pca_rotation_angle eig (to_yxz image_3d))
  = Ok rot ->
  any_negative rot = true ->
  process_image vx vy vz eig rs rd image_3d area
  = Raise (ValueError (Rotated_image_contains_negative_values (count_negative rot))).
Proof.
  intros H Hrot Hneg. unfold process_image. rewrite H.
  destruct (calculate_fluorescence vx vy (to_yxz image_3d) area) as [fp fu].
  now rewrite Hrot, Hneg.
Qed.

(** C4: when the volume holds a negative intensity, or when it does not but
    the rotated volume does, [process_image] raises a [ValueError] whose
    message carries the (positive) number of negative voxels; no result
    record is produced and nothing is clamped. *)
Theorem process_image_rejects_negative_C4
    (vx vy vz : R) (eig : mat2 R -> eig_result)
    (rs : nat * nat -> float64 -> nat * nat) (rd : array2 -> float64 -> nat -> nat -> R)
    (image_3d : array3) (area : R) :
  has_negative image_3d \/
  (exists rot,
      rotate_image rs rd (to_yxz image_3d)
        (calculate_pca_rotation_angle eig (to_yxz image_3d)) = Ok rot
      /\ has_negative rot) ->
  exists msg,
    process_image vx vy vz eig rs rd image_3d area = Raise (ValueError msg)
    /\ descriptive msg.
Proof.
  intros H.
  destruct (any_negative (to_yxz image_3d)) eqn:Hin.
  - exists (Image_contains_negative_values (count_negative (to_yxz image_3d))).
    split; [now apply process_image_negative_input |].
    apply count_negative_pos. now apply any_negative_has_negative.
  - destruct H as [H | (rot & Hrot & Hneg)].
    + apply has_negative_to_yxz, any_negative_has_negative in H. congruence.
    + exists (Rotated_image_contains_negative_values (count_negative rot)).
      split; [| now apply count_negative_pos].
      apply process_image_negative_rotated; try assumption.
      now apply any_negative_has_negative.
Qed.

Lemma has_negative_full_111 (v : R) : v < 0 -> has_negative (full 1 1 1 v).
Proof.
  intros H. exists 0%nat, 0%nat, 0%nat. unfold full, nrows, ncols, depth. simpl.
  repeat split; try lia. assumption.
Qed.

Lemma rotated_undershoot_has_negative :
  exists rot,
    rotate_image rotate_shape_by_zero rotate_data_undershoot (to_yxz (full 1 1 1 1))
      (calculate_pca_rotation_angle eig_of_diagonal (to_yxz (full 1 1 1 1))) = Ok rot
    /\ has_negative rot.
Proof.
  change (to_yxz (full 1 1 1 1)) with (full 1 1 1 1).
  eexists. split; [reflexivity |].
  exists 0%nat, 0%nat, 0%nat.
  unfold nrows, ncols, depth, rotate_shape_by_zero, rotate_data_undershoot. simpl.
  repeat split; try (unfold nrows, ncols; simpl; lia). lra.
Qed.

Lemma process_image_rejects_negative_C4_witness :
  (exists msg,
     process_image 1 1 1 eig_of_diagonal rotate_shape_by_zero rotate_data_by_zero
       (full 1 1 1 (- 1)) 1 = Raise (ValueError msg) /\ descriptive msg) /\
  (exists msg,
     process_image 1 1 1 eig_of_diagonal rotate_shape_by_zero rotate_data_undershoot
       (full 1 1 1 1) 1 = Raise (ValueError msg) /\ descriptive msg).
Proof.
  split.
  - apply process_image_rejects_negative_C4. left.
    apply has_negative_full_111. lra.
  - apply process_image_rejects_negative_C4. right.
    exact rotated_undershoot_has_negative.
Defined.

(* ================================================================== *)
(** ** The local spread profile *)
(* ================================================================== *)

Lemma nth_error_map_seq {A : Type} (f : nat -> A) (n i : nat) :
  (i < n)%nat -> nth_error (map f (seq 0 n)) i = Some (f i).
Proof.
  intros Hi. rewrite nth_error_map, nth_error_seq.
  destruct (Nat.ltb_spec i n); [reflexivity | lia].
Qed.

(** The slab sum of the loop is the slab sum of the specification. *)
Lemma slab_total_spec (a : array3) (i : nat) :
  sum_over (depth a) (fun z => sum_over (nrows a) (fun y => data3 a y i z))
  = slab_sum_spec a i.
Proof. unfold slab_sum_spec. apply sum_over_swap. Qed.

(** A weighted sum over the row marginal is the weighted sum over the slab. *)
Lemma row_marginal_sum (a : array3) (i : nat) (w : nat -> R) :
  sum_over (nrows a) (fun y => w y * sum_over (depth a) (fun z => data3 a y i z))
  = sum_over (nrows a) (fun y => sum_over (depth a) (fun z => w y * data3 a y i z)).
Proof. apply sum_over_ext. intros y _. now rewrite sum_over_scal. Qed.

(** A weighted sum over the depth marginal is the weighted sum over the slab. *)
Lemma depth_marginal_sum (a : array3) (i : nat) (w : nat -> R) :
  sum_over (depth a) (fun z => w z * sum_over (nrows a) (fun y => data3 a y i z))
  = sum_over (nrows a) (fun y => sum_over (depth a) (fun z => w z * data3 a y i z)).
Proof.
  rewrite sum_over_swap. apply sum_over_ext. intros z _. now rewrite sum_over_scal.
Qed.

(** One iteration of the loop computes the quantities of the specification. *)
Lemma slab_spreads_spec (a : array3) (i : nat) :
  slab_spreads (depth a) (nrows a) (fun z y => data3 a y i z) =
  if Rlt_dec 0 (slab_sum_spec a i)
  then (slab_sum_spec a i,
        Some (weighted_variance_spec a i row_position),
        Some (weighted_variance_spec a i depth_position))
  else (slab_sum_spec a i, None, None).
Proof.
  unfold slab_spreads. rewrite slab_total_spec.
  destruct (Rlt_dec 0 (slab_sum_spec a i)) as [Hpos | Hnpos]; [| reflexivity].
  unfold weighted_variance_spec, weighted_mean_spec, row_position, depth_position.
  rewrite (row_marginal_sum a i (fun y => INR (y + 1))).
  rewrite (depth_marginal_sum a i (fun z => INR (z + 1))).
  rewrite (row_marginal_sum a i (fun y => (INR (y + 1) - _) ^ 2)).
  rewrite (depth_marginal_sum a i (fun z => (INR (z + 1) - _) ^ 2)).
  reflexivity.
Qed.

Lemma local_spreads_standard (a : array3) :
  calculate_local_spreads a true =
  (map (fun i => fst (fst (slab_spreads (depth a) (nrows a) (fun z y => data3 a y i z))))
       (seq 0 (ncols a)),
   map (fun i => snd (fst (slab_spreads (depth a) (nrows a) (fun z y => data3 a y i z))))
       (seq 0 (ncols a)),
   map (fun i => snd (slab_spreads (depth a) (nrows a) (fun z y => data3 a y i z)))
       (seq 0 (ncols a)),
   arange1 (ncols a)).
Proof. unfold calculate_local_spreads. now rewrite !map_map. Qed.

(** C6: in the standard convention, at every column [i] the reported sum is
    the slab sum; when it is strictly positive the two reported variances
    are the intensity-weighted variances of the 1-indexed row positions and
    of the 1-indexed depth positions around their intensity-weighted means,
    each normalised by the slab sum; when it is zero both are NaN. *)
Theorem local_spreads_weighted_variance_C6 (a : array3) (i : nat) :
  (i < ncols a)%nat ->
  let p := calculate_local_spreads a true in
  nth_error (profile_MMsum p) i = Some (slab_sum_spec a i) /\
  nth_error (profile_xx00 p) i = Some (INR (i + 1)) /\
  (0 < slab_sum_spec a i ->
   nth_error (profile_MMyy p) i = Some (Some (weighted_variance_spec a i row_position)) /\
   nth_error (profile_MMzz p) i = Some (Some (weighted_variance_spec a i depth_position))) /\
  (slab_sum_spec a i = 0 ->
   nth_error (profile_MMyy p) i = Some None /\
   nth_error (profile_MMzz p) i = Some None).
Proof.
  intros Hi p. subst p. rewrite local_spreads_standard.
  unfold profile_MMsum, profile_MMyy, profile_MMzz, profile_xx00, arange1.
  cbn [fst snd]. rewrite !nth_error_map_seq by assumption.
  rewrite slab_spreads_spec.
  destruct (Rlt_dec 0 (slab_sum_spec a i)) as [Hpos | Hnpos]; cbn [fst snd].
  - repeat split; try reflexivity; intros; lra.
  - repeat split; try reflexivity; intros; lra.
Qed.

Lemma local_spreads_weighted_variance_C6_witness :
  nth_error (profile_MMsum (calculate_local_spreads column_volume true)) 0
  = Some (slab_sum_spec column_volume 0).
Proof.
  assert (Hi : (0 < ncols column_volume)%nat) by (unfold ncols; simpl; lia).
  exact (proj1 (local_spreads_weighted_variance_C6 column_volume 0 Hi)).
Defined.

(* ================================================================== *)
(** ** The pipeline on a volume without signal *)
(* ================================================================== *)

(** The run of [process_image] when neither check fires. *)
Lemma process_image_ok
    (vx vy vz : R) (eig : mat2 R -> eig_result)
    (rs : nat * nat -> float64 -> nat * nat) (rd : array2 -> float64 -> nat -> nat -> R)
    (image_3d : array3) (area : R) (rot : array3) :
  any_negative (to_yxz image_3d) = false ->
  rotate_image rs rd (to_yxz image_3d) (calculate_pca_rotation_angle eig (to_yxz image_3d))
  = Ok rot ->
  any_negative rot = false ->
  let p := calculate_local_spreads (rot90 rot) true in
  let fl := calculate_fluorescence vx vy (to_yxz image_3d) area in
  process_image vx vy vz eig rs rd image_3d area
  = Ok (add_metadata
          (calculate_global_spreads vx vy vz (profile_MMsum p) (profile_MMyy p)
             (profile_MMzz p) (profile_xx00 p))
          (fst fl) (snd fl) (calculate_pca_rotation_angle eig (to_yxz image_3d))).
Proof.
  intros Hin Hrot Hneg p fl. subst p fl. unfold process_image. rewrite Hin.
  destruct (calculate_fluorescence vx vy (to_yxz image_3d) area) as [fp fu].
  rewrite Hrot, Hneg.
  destruct (calculate_local_spreads (rot90 rot) true) as [[[s vyy] vzz] xx].
  reflexivity.
Qed.

Lemma slab_spreads_total (nz ny : nat) (MM : nat -> nat -> R) :
  fst (fst (slab_spreads nz ny MM))
  = sum_over nz (fun z => sum_over ny (fun y => MM z y)).
Proof. unfold slab_spreads. now destruct (Rlt_dec 0 _). Qed.

(** The total of the profile is the sum of the slab sums. *)
Lemma local_spreads_total (a : array3) :
  Rsum (profile_MMsum (calculate_local_spreads a true))
  = sum_over (ncols a) (fun i => slab_sum_spec a i).
Proof.
  rewrite local_spreads_standard. unfold profile_MMsum. cbn [fst].
  unfold sum_over at 1. f_equal. apply map_ext. intros i.
  rewrite slab_spreads_total. apply slab_total_spec.
Qed.

Lemma sum3_all_zero (a : array3) : all_zero3 a -> sum3 a = 0.
Proof.
  intros H. unfold sum3.
  apply sum_over_zero; intros i Hi.
  apply sum_over_zero; intros j Hj.
  apply sum_over_zero; intros k Hk. now apply H.
Qed.

(** A non-negative volume whose total is zero is zero everywhere. *)
Lemma non_negative_sum3_zero (a : array3) :
  non_negative a -> sum3 a = 0 -> all_zero3 a.
Proof.
  intros Hpos Hsum i j k Hi Hj Hk. unfold sum3 in Hsum.
  assert (H1 : sum_over (ncols a) (fun j => sum_over (depth a) (fun k => data3 a i j k)) = 0).
  { apply (sum_over_nonneg_zero (nrows a)
             (fun i => sum_over (ncols a) (fun j => sum_over (depth a)
                                                      (fun k => data3 a i j k))));
      try assumption.
    intros i' Hi'. apply sum_over_nonneg; intros j' Hj'.
    apply sum_over_nonneg; intros k' Hk'. now apply Hpos. }
  assert (H2 : sum_over (depth a) (fun k => data3 a i j k) = 0).
  { apply (sum_over_nonneg_zero (ncols a)
             (fun j => sum_over (depth a) (fun k => data3 a i j k)));
      try assumption.
    intros j' Hj'. apply sum_over_nonneg; intros k' Hk'. now apply Hpos. }
  apply (sum_over_nonneg_zero (depth a) (fun k => data3 a i j k)); try assumption.
  intros k' Hk'. now apply Hpos.
Qed.

Lemma all_zero3_to_yxz (a : array3) : all_zero3 a -> all_zero3 (to_yxz a).
Proof.
  intros H. unfold to_yxz. destruct (nrows a <? depth a)%nat; [| assumption].
  intros i j k Hi Hj Hk. unfold transpose_120, nrows, ncols, depth in *.
  simpl in *. now apply H.
Qed.

Lemma all_zero3_non_negative (a : array3) : all_zero3 a -> non_negative a.
Proof. intros H i j k Hi Hj Hk. rewrite H by assumption. lra. Qed.

Lemma all_zero3_rot90 (a : array3) : all_zero3 a -> all_zero3 (rot90 a).
Proof.
  intros H i j k Hi Hj Hk. unfold rot90, nrows, ncols, depth in *.
  simpl in *. apply H; unfold nrows, ncols, depth; lia.
Qed.

Lemma depth_to_yxz_pos (a : array3) : non_empty a -> (0 < depth (to_yxz a))%nat.
Proof.
  intros (Hr & Hc & Hd). unfold to_yxz.
  destruct (nrows a <? depth a)%nat; [| assumption].
  unfold transpose_120, depth. simpl. exact Hr.
Qed.

(** A zero projection gives the angle 0.0. *)
Lemma pca_angle_zero_projection (eig : mat2 R -> eig_result) (image_yxz : array3) :
  (forall i j, (i < nrows image_yxz)%nat -> (j < ncols image_yxz)%nat ->
               projection_z image_yxz i j = 0) ->
  calculate_pca_rotation_angle eig image_yxz = fzero.
Proof.
  intros H. unfold calculate_pca_rotation_angle.
  destruct (Req_dec_T (sum_grid image_yxz (projection_z image_yxz)) 0) as [_ | Hne];
    [reflexivity |].
  exfalso. apply Hne. unfold sum_grid.
  apply sum_over_zero; intros i Hi. apply sum_over_zero; intros j Hj. now apply H.
Qed.

Lemma projection_all_zero (a : array3) (i j : nat) :
  all_zero3 a -> (i < nrows a)%nat -> (j < ncols a)%nat -> projection_z a i j = 0.
Proof.
  intros H Hi Hj. unfold projection_z. apply sum_over_zero. intros k Hk. now apply H.
Qed.

(** A profile whose total is zero gives the all-zero record. *)
Lemma global_spreads_zero_total
    (vx vy vz : R) (sums : list R) (vyy vzz : list nanable) (xx00 : list R) :
  Rsum sums = 0 ->
  calculate_global_spreads vx vy vz sums vyy vzz xx00 = _get_empty_results.
Proof.
  intros H. unfold calculate_global_spreads.
  destruct (Req_dec_T (Rsum sums) 0); [reflexivity | contradiction].
Qed.

(** The slices of an all-zero stack stay zero under a resampler that maps
    zero slices to zero slices. *)
Lemma rotate_image_all_zero
    (rs : nat * nat -> float64 -> nat * nat) (rd : array2 -> float64 -> nat -> nat -> R)
    (a : array3) (angle : float64) :
  (forall s, all_zero2 s -> all_zero2 (ndi_rotate rs rd s angle)) ->
  all_zero3 a -> (0 < depth a)%nat ->
  exists rot, rotate_image rs rd a angle = Ok rot /\ all_zero3 rot.
Proof.
  intros Hrot Hz Hd. unfold rotate_image.
  destruct (depth a) as [| d] eqn:Ed; [lia |].
  eexists. split; [reflexivity |].
  intros i j k Hi Hj Hk. unfold nrows, ncols, depth in Hi, Hj, Hk. simpl in *.
  assert (Hs : all_zero2 (slice_z a k)).
  { intros i' j' Hi' Hj'. simpl in *. apply Hz; try assumption.
    rewrite Ed. exact Hk. }
  apply (Hrot _ Hs); simpl; assumption.
Qed.

(** C3, as stated, fails: the stack [np.zeros((2, 2, 0))] has two rows, two
    columns and no slice; it holds no negative value and its total
    intensity is zero.  With the region area 5, and a resampler that keeps
    zero slices zero, [process_image] does not return a record: the two
    zero-total guards are passed ([calculate_pca_rotation_angle] answers
    0.0) and [rotate_image] raises [IndexError] at [image_yxz[:, :, 0]]. *)
Lemma process_image_empty_stack_raises_C3 :
  non_negative (full 2 2 0 0) /\
  sum3 (full 2 2 0 0) = 0 /\
  0 < 5 /\
  (forall s, all_zero2 s ->
             all_zero2 (ndi_rotate rotate_shape_by_zero rotate_data_by_zero s fzero)) /\
  calculate_pca_rotation_angle eig_of_diagonal (full 2 2 0 0) = fzero /\
  process_image 1 1 1 eig_of_diagonal rotate_shape_by_zero rotate_data_by_zero
    (full 2 2 0 0) 5 = Raise IndexError /\
  ~ (exists r,
        process_image 1 1 1 eig_of_diagonal rotate_shape_by_zero rotate_data_by_zero
          (full 2 2 0 0) 5 = Ok r).
Proof.
  assert (Hz : all_zero3 (full 2 2 0 0)) by (intros i j k _ _ _; reflexivity).
  assert (Hraise :
    process_image 1 1 1 eig_of_diagonal rotate_shape_by_zero rotate_data_by_zero
      (full 2 2 0 0) 5 = Raise IndexError).
  { unfold process_image.
    change (to_yxz (full 2 2 0 0)) with (full 2 2 0 0).
    rewrite (proj2 (any_negative_false (full 2 2 0 0)))
      by now apply all_zero3_non_negative.
    destruct (calculate_fluorescence 1 1 (full 2 2 0 0) 5) as [fp fu].
    reflexivity. }
  split; [now apply all_zero3_non_negative |].
  split; [now apply sum3_all_zero |].
  split; [lra |].
  split; [intros s Hs; exact Hs |].
  split.
  - apply pca_angle_zero_projection. intros i j Hi Hj. now apply projection_all_zero.
  - split; [exact Hraise |].
    intros [r Hr]. rewrite Hraise in Hr. discriminate.
Qed.

(** C3, amended: for a non-negative volume of zero total intensity that
    has at least one row, one column and one slice, and a positive region
    area (the resampler mapping zero slices to zero slices),
    [process_image] returns a record, without raising, in which every
    spread, in pixel and in physical units, and the axonal volume are 0.0.
    In particular [calculate_pca_rotation_angle] returns 0.0 on a zero
    projection and [calculate_global_spreads] returns the all-zero record
    on a profile of zero total. *)
Theorem process_image_zero_volume_C3
    (vx vy vz : R) (eig : mat2 R -> eig_result)
    (rs : nat * nat -> float64 -> nat * nat) (rd : array2 -> float64 -> nat -> nat -> R)
    (image_3d : array3) (area : R) :
  non_empty image_3d -> non_negative image_3d -> sum3 image_3d = 0 -> 0 < area ->
  (forall s, all_zero2 s -> all_zero2 (ndi_rotate rs rd s fzero)) ->
  (exists r,
      process_image vx vy vz eig rs rd image_3d area = Ok r /\
      pixel_spreads r = (fzero, fzero, fzero, fzero, fzero) /\
      physical_spreads r = (fzero, fzero, fzero, fzero, fzero) /\
      axonal_volume r = fzero /\
      fluorescence_px r = Some fzero /\
      rotation_angle r = Some fzero) /\
  (forall image_yxz,
      (forall i j, (i < nrows image_yxz)%nat -> (j < ncols image_yxz)%nat ->
                   projection_z image_yxz i j = 0) ->
      calculate_pca_rotation_angle eig image_yxz = fzero) /\
  (forall sums vyy vzz xx00,
      Rsum sums = 0 ->
      calculate_global_spreads vx vy vz sums vyy vzz xx00 = _get_empty_results).
Proof.
  intros Hne Hpos Hsum Harea Hrot.
  assert (Hz : all_zero3 (to_yxz image_3d))
    by now apply all_zero3_to_yxz, non_negative_sum3_zero.
  assert (Hangle : calculate_pca_rotation_angle eig (to_yxz image_3d) = fzero).
  { apply pca_angle_zero_projection. intros i j Hi Hj. now apply projection_all_zero. }
  split; [| split; [intros; now apply pca_angle_zero_projection
                   | intros; now apply global_spreads_zero_total]].
  assert (Hin : any_negative (to_yxz image_3d) = false)
    by now apply any_negative_false, all_zero3_non_negative.
  destruct (rotate_image_all_zero rs rd (to_yxz image_3d) fzero Hrot Hz
              (depth_to_yxz_pos image_3d Hne)) as (rot & Erot & Hzrot).
  rewrite <- Hangle in Erot.
  assert (Hneg : any_negative rot = false)
    by now apply any_negative_false, all_zero3_non_negative.
  rewrite (process_image_ok vx vy vz eig rs rd image_3d area rot Hin Erot Hneg).
  eexists. split; [reflexivity |].
  rewrite global_spreads_zero_total.
  - rewrite Hangle. unfold calculate_fluorescence. cbn [fst snd].
    rewrite (sum3_all_zero _ Hz), fdiv_of_R by assumption.
    replace (0 / area) with 0 by (unfold Rdiv; ring).
    rewrite of_R_0, fround2_fzero. repeat split; try reflexivity.
    cbn [rotation_angle add_metadata]. now rewrite fround2_fzero.
  - rewrite local_spreads_total. apply sum_over_zero. intros i Hi.
    unfold slab_sum_spec.
    apply sum_over_zero; intros y Hy. apply sum_over_zero; intros z Hz'.
    now apply all_zero3_rot90.
Qed.

Lemma process_image_zero_volume_C3_witness :
  exists r,
    process_image 1 1 1 eig_of_diagonal rotate_shape_by_zero rotate_data_by_zero
      (full 2 2 2 0) 5 = Ok r /\
    pixel_spreads r = (fzero, fzero, fzero, fzero, fzero) /\
    physical_spreads r = (fzero, fzero, fzero, fzero, fzero) /\
    axonal_volume r = fzero /\
    fluorescence_px r = Some fzero /\
    rotation_angle r = Some fzero.
Proof.
  apply (process_image_zero_volume_C3 1 1 1 eig_of_diagonal
           rotate_shape_by_zero rotate_data_by_zero (full 2 2 2 0) 5).
  - unfold non_empty, nrows, ncols, depth. simpl. lia.
  - intros i j k _ _ _. simpl. lra.
  - apply sum3_all_zero. intros i j k _ _ _. reflexivity.
  - lra.
  - intros s Hs. exact Hs.
Defined.

(* ================================================================== *)
(** ** Scaling the intensities *)
(* ================================================================== *)

Section IntensityScaling.

Variable c : R.
Hypothesis c_pos : 0 < c.

Lemma scaled_quotient (x s : R) : s <> 0 -> c * x / (c * s) = x / s.
Proof. intros Hs. field. split; lra. Qed.

Lemma Rsum_map_scal (l : list R) : Rsum (map (Rmult c) l) = c * Rsum l.
Proof. induction l as [| x l IH]; simpl; [ring | rewrite IH; ring]. Qed.

Lemma Rsum_map2_scal_r {A : Type} (f : A -> R -> R) (l1 : list A) (l2 : list R) :
  (forall a x, f a (c * x) = c * f a x) ->
  Rsum (map2 f l1 (map (Rmult c) l2)) = c * Rsum (map2 f l1 l2).
Proof.
  intros Hf. revert l2.
  induction l1 as [| a l1 IH]; intros [| x l2]; simpl; try ring.
  rewrite IH, Hf. ring.
Qed.

Lemma Rsum_map2_scal_l {A : Type} (f : R -> A -> R) (l1 : list R) (l2 : list A) :
  (forall x a, f (c * x) a = c * f x a) ->
  Rsum (map2 f (map (Rmult c) l1) l2) = c * Rsum (map2 f l1 l2).
Proof.
  intros Hf. revert l2.
  induction l1 as [| x l1 IH]; intros [| a l2]; simpl; try ring.
  rewrite IH, Hf. ring.
Qed.

Lemma nansum_map2_scal (vv : list nanable) (sums : list R) :
  nansum (map2 nan_mul vv (map (Rmult c) sums)) = c * nansum (map2 nan_mul vv sums).
Proof.
  unfold nansum. revert sums.
  induction vv as [| v vv IH]; intros [| x sums]; simpl; try ring.
  rewrite IH. destruct v as [r |]; simpl; ring.
Qed.

(** The pixel spreads do not see a scaling of the intensity sums. *)
Lemma spread_x_px_scaled (sums xx00 : list R) :
  Rsum sums <> 0 ->
  spread_x_px (map (Rmult c) sums) xx00 = spread_x_px sums xx00.
Proof.
  intros Hne. unfold spread_x_px. rewrite Rsum_map_scal.
  rewrite (Rsum_map2_scal_r Rmult) by (intros; ring).
  rewrite scaled_quotient by assumption.
  rewrite (Rsum_map2_scal_l (fun s x => s * (x - _) ^ 2)) by (intros; ring).
  now rewrite scaled_quotient by assumption.
Qed.

Lemma spread_transverse_px_scaled (sums : list R) (vv : list nanable) :
  Rsum sums <> 0 ->
  spread_transverse_px (map (Rmult c) sums) vv = spread_transverse_px sums vv.
Proof.
  intros Hne. unfold spread_transverse_px.
  now rewrite Rsum_map_scal, nansum_map2_scal, scaled_quotient by assumption.
Qed.

(** The record of a scaled profile: the same spreads. *)
Lemma global_spreads_scaled
    (vx vy vz : R) (sums : list R) (vyy vzz : list nanable) (xx00 : list R) :
  let r := calculate_global_spreads vx vy vz sums vyy vzz xx00 in
  let r' := calculate_global_spreads vx vy vz (map (Rmult c) sums) vyy vzz xx00 in
  pixel_spreads r' = pixel_spreads r /\ physical_spreads r' = physical_spreads r.
Proof.
  intros r r'. subst r r'. unfold calculate_global_spreads.
  rewrite Rsum_map_scal.
  destruct (Req_dec_T (Rsum sums) 0) as [E | E].
  - destruct (Req_dec_T (c * Rsum sums) 0) as [_ | E']; [split; reflexivity |].
    exfalso. apply E'. rewrite E. ring.
  - destruct (Req_dec_T (c * Rsum sums) 0) as [E' | _]; [exfalso; nra |].
    cbv zeta. unfold pixel_spreads, physical_spreads. cbn [spread_x_pixel
      spread_y_pixel spread_z_pixel spread_xy_pixel spread_xyz_pixel spread_x_um
      spread_y_um spread_z_um spread_xy_um spread_xyz_um].
    rewrite spread_x_px_scaled, !spread_transverse_px_scaled by assumption.
    split; reflexivity.
Qed.

(** The axonal volume is the rounded total of the profile. *)
Lemma global_spreads_axonal_volume
    (vx vy vz : R) (sums : list R) (vyy vzz : list nanable) (xx00 : list R) :
  axonal_volume (calculate_global_spreads vx vy vz sums vyy vzz xx00)
  = fround2 (of_R (Rsum sums)).
Proof.
  unfold calculate_global_spreads.
  destruct (Req_dec_T (Rsum sums) 0) as [E | E]; [| reflexivity].
  rewrite E, of_R_0, fround2_fzero. reflexivity.
Qed.

End IntensityScaling.

Lemma slab_spreads_marginals (nz ny : nat) (MM : nat -> nat -> R) :
  slab_spreads nz ny MM =
  let T := sum_over nz (fun z => sum_over ny (fun y => MM z y)) in
  if Rlt_dec 0 T
  then (T,
        Some (marginal_variance ny (fun y => sum_over nz (fun z => MM z y)) T),
        Some (marginal_variance nz (fun z => sum_over ny (fun y => MM z y)) T))
  else (T, None, None).
Proof. reflexivity. Qed.

Section VolumeScaling.

Variable c : R.
Hypothesis c_pos : 0 < c.

Lemma weighted_sum_scaled (n : nat) (w marg marg' : nat -> R) :
  (forall y, (y < n)%nat -> marg' y = c * marg y) ->
  sum_over n (fun y => w y * marg' y) = c * sum_over n (fun y => w y * marg y).
Proof.
  intros H. rewrite <- sum_over_scal. apply sum_over_ext.
  intros y Hy. rewrite H by assumption. ring.
Qed.

Lemma marginal_variance_scaled (n : nat) (marg marg' : nat -> R) (T : R) :
  T <> 0 ->
  (forall y, (y < n)%nat -> marg' y = c * marg y) ->
  marginal_variance n marg' (c * T) = marginal_variance n marg T.
Proof.
  intros HT H. unfold marginal_variance.
  rewrite (weighted_sum_scaled n (fun y => INR (y + 1)) marg marg' H).
  rewrite (scaled_quotient c c_pos) by assumption.
  rewrite (weighted_sum_scaled n (fun y => (INR (y + 1) - _) ^ 2) marg marg' H).
  now rewrite (scaled_quotient c c_pos) by assumption.
Qed.

Lemma sum_over_scaled (n : nat) (f f' : nat -> R) :
  (forall y, (y < n)%nat -> f' y = c * f y) -> sum_over n f' = c * sum_over n f.
Proof.
  intros H. rewrite <- sum_over_scal. now apply sum_over_ext.
Qed.

(** One iteration of the loop on a slab scaled by [c]: the sum is scaled,
    the variances are unchanged. *)
Lemma slab_spreads_scaled (nz ny : nat) (MM MM' : nat -> nat -> R) :
  (forall z y, (z < nz)%nat -> (y < ny)%nat -> MM' z y = c * MM z y) ->
  slab_spreads nz ny MM' =
  (c * fst (fst (slab_spreads nz ny MM)),
   snd (fst (slab_spreads nz ny MM)),
   snd (slab_spreads nz ny MM)).
Proof.
  intros H. rewrite !slab_spreads_marginals. cbv zeta.
  set (T := sum_over nz (fun z => sum_over ny (fun y => MM z y))).
  assert (H1 : forall z, (z < nz)%nat ->
               sum_over ny (fun y => MM' z y) = c * sum_over ny (fun y => MM z y)).
  { intros z Hz. apply sum_over_scaled. intros y Hy. now apply H. }
  assert (H0 : forall y, (y < ny)%nat ->
               sum_over nz (fun z => MM' z y) = c * sum_over nz (fun z => MM z y)).
  { intros y Hy. apply sum_over_scaled. intros z Hz. now apply H. }
  assert (HT : sum_over nz (fun z => sum_over ny (fun y => MM' z y)) = c * T)
    by now apply sum_over_scaled.
  rewrite HT.
  destruct (Rlt_dec 0 T) as [Hpos | Hnpos].
  - destruct (Rlt_dec 0 (c * T)) as [_ | Hn]; [| exfalso; nra].
    cbn [fst snd].
    rewrite (marginal_variance_scaled ny _ _ T) by (try apply H0; lra).
    rewrite (marginal_variance_scaled nz _ _ T) by (try apply H1; lra).
    reflexivity.
  - destruct (Rlt_dec 0 (c * T)) as [Hp | _]; [exfalso; nra | reflexivity].
Qed.

(** The profile of a volume scaled by [c]: the sums are scaled, the
    variances and the coordinates are unchanged. *)
Lemma local_spreads_scaled (a a' : array3) :
  scaled3 c a a' ->
  let p := calculate_local_spreads a true in
  calculate_local_spreads a' true =
  (map (Rmult c) (profile_MMsum p), profile_MMyy p, profile_MMzz p, profile_xx00 p).
Proof.
  intros [Hshape Hdata] p. subst p. rewrite !local_spreads_standard.
  unfold profile_MMsum, profile_MMyy, profile_MMzz, profile_xx00. cbn [fst snd].
  assert (Hr : nrows a' = nrows a) by (unfold nrows; now rewrite Hshape).
  assert (Hc : ncols a' = ncols a) by (unfold ncols; now rewrite Hshape).
  assert (Hd : depth a' = depth a) by (unfold depth; now rewrite Hshape).
  rewrite Hr, Hc, Hd.
  assert (Hslab : forall i, In i (seq 0 (ncols a)) ->
            slab_spreads (depth a) (nrows a) (fun z y => data3 a' y i z) =
            (c * fst (fst (slab_spreads (depth a) (nrows a) (fun z y => data3 a y i z))),
             snd (fst (slab_spreads (depth a) (nrows a) (fun z y => data3 a y i z))),
             snd (slab_spreads (depth a) (nrows a) (fun z y => data3 a y i z)))).
  { intros i Hi. apply in_seq in Hi. apply slab_spreads_scaled.
    intros z y Hz Hy. apply Hdata; [assumption | lia | assumption]. }
  rewrite map_map.
  rewrite (map_ext_in _ (fun i => c * fst (fst (slab_spreads (depth a) (nrows a)
                                         (fun z y => data3 a y i z)))))
    by (intros i Hi; now rewrite (Hslab i Hi)).
  rewrite (map_ext_in (fun i => snd (fst (slab_spreads (depth a) (nrows a)
                                         (fun z y => data3 a' y i z))))
             (fun i => snd (fst (slab_spreads (depth a) (nrows a)
                                         (fun z y => data3 a y i z)))))
    by (intros i Hi; now rewrite (Hslab i Hi)).
  rewrite (map_ext_in (fun i => snd (slab_spreads (depth a) (nrows a)
                                         (fun z y => data3 a' y i z)))
             (fun i => snd (slab_spreads (depth a) (nrows a)
                                         (fun z y => data3 a y i z))))
    by (intros i Hi; now rewrite (Hslab i Hi)).
  reflexivity.
Qed.

Lemma scaled3_rot90 (a a' : array3) : scaled3 c a a' -> scaled3 c (rot90 a) (rot90 a').
Proof.
  intros [Hshape Hdata].
  assert (Hr : nrows a' = nrows a) by (unfold nrows; now rewrite Hshape).
  assert (Hc : ncols a' = ncols a) by (unfold ncols; now rewrite Hshape).
  assert (Hd : depth a' = depth a) by (unfold depth; now rewrite Hshape).
  split.
  - unfold rot90. simpl. now rewrite Hr, Hc, Hd.
  - intros i j k Hi Hj Hk. unfold rot90, nrows, ncols, depth in Hi, Hj, Hk.
    simpl in Hi, Hj, Hk. unfold rot90. simpl. rewrite Hc.
    apply Hdata; unfold nrows, ncols, depth; lia.
Qed.

(** Scaling by a positive factor keeps the sign of every voxel. *)
Lemma any_negative_scaled (a a' : array3) :
  scaled3 c a a' -> any_negative a' = any_negative a.
Proof.
  intros [Hshape Hdata].
  assert (Hr : nrows a' = nrows a) by (unfold nrows; now rewrite Hshape).
  assert (Hc : ncols a' = ncols a) by (unfold ncols; now rewrite Hshape).
  assert (Hd : depth a' = depth a) by (unfold depth; now rewrite Hshape).
  destruct (any_negative a) eqn:E.
  - apply any_negative_true in E. destruct E as (i & j & k & Hi & Hj & Hk & H).
    apply any_negative_true. exists i, j, k.
    rewrite Hr, Hc, Hd, Hdata by assumption. repeat split; try assumption. nra.
  - apply any_negative_false in E. apply any_negative_false.
    intros i j k Hi Hj Hk. rewrite Hr in Hi. rewrite Hc in Hj. rewrite Hd in Hk.
    rewrite Hdata by assumption. specialize (E i j k Hi Hj Hk). nra.
Qed.

End VolumeScaling.

Lemma cov_matrix_weights (a : array3) :
  cov_matrix a =
  cov_of_weights (nrows a) (ncols a)
    (fun i j => projection_z a i j / sum_grid a (projection_z a)).
Proof. reflexivity. Qed.

Lemma grid_sum_ext (nr nc : nat) (f g : nat -> nat -> R) :
  (forall i j, (i < nr)%nat -> (j < nc)%nat -> f i j = g i j) ->
  sum_over nr (fun i => sum_over nc (fun j => f i j))
  = sum_over nr (fun i => sum_over nc (fun j => g i j)).
Proof.
  intros H. apply sum_over_ext; intros i Hi. apply sum_over_ext; intros j Hj. now apply H.
Qed.

(** The covariance matrix depends on the weights inside the grid only. *)
Lemma cov_of_weights_ext (nr nc : nat) (w w' : nat -> nat -> R) :
  (forall i j, (i < nr)%nat -> (j < nc)%nat -> w' i j = w i j) ->
  cov_of_weights nr nc w' = cov_of_weights nr nc w.
Proof.
  intros H. unfold cov_of_weights. cbv zeta.
  assert (HMx : sum_over nr (fun i => sum_over nc (fun j => INR j * w' i j))
                = sum_over nr (fun i => sum_over nc (fun j => INR j * w i j))).
  { apply grid_sum_ext. intros i j Hi Hj. now rewrite H. }
  assert (HMy : sum_over nr (fun i => sum_over nc (fun j => INR i * w' i j))
                = sum_over nr (fun i => sum_over nc (fun j => INR i * w i j))).
  { apply grid_sum_ext. intros i j Hi Hj. now rewrite H. }
  rewrite HMx, HMy.
  f_equal; apply grid_sum_ext; intros i j Hi Hj; now rewrite H.
Qed.

Section AngleScaling.

Variable c : R.
Hypothesis c_pos : 0 < c.

Lemma scaled3_scale_intensity (a : array3) : scaled3 c a (scale_intensity c a).
Proof. split; [reflexivity | intros; reflexivity]. Qed.

Lemma to_yxz_scale_intensity (a : array3) :
  to_yxz (scale_intensity c a) = scale_intensity c (to_yxz a).
Proof.
  unfold to_yxz.
  change (nrows (scale_intensity c a)) with (nrows a).
  change (depth (scale_intensity c a)) with (depth a).
  now destruct (nrows a <? depth a)%nat.
Qed.

Lemma projection_z_scale_intensity (a : array3) (i j : nat) :
  projection_z (scale_intensity c a) i j = c * projection_z a i j.
Proof. unfold projection_z. simpl. apply sum_over_scal. Qed.

Lemma sum_projection_scale_intensity (a : array3) :
  sum_grid (scale_intensity c a) (projection_z (scale_intensity c a))
  = c * sum_grid a (projection_z a).
Proof.
  unfold sum_grid.
  change (nrows (scale_intensity c a)) with (nrows a).
  change (ncols (scale_intensity c a)) with (ncols a).
  apply (sum_over_scaled c); intros i Hi.
  apply (sum_over_scaled c); intros j Hj.
  apply projection_z_scale_intensity.
Qed.

(** Scaling the intensities changes neither the normalised projection
    nor, therefore, the covariance matrix and the angle. *)
Lemma cov_matrix_scale_intensity (a : array3) :
  sum_grid a (projection_z a) <> 0 ->
  cov_matrix (scale_intensity c a) = cov_matrix a.
Proof.
  intros Hne. rewrite !cov_matrix_weights.
  change (nrows (scale_intensity c a)) with (nrows a).
  change (ncols (scale_intensity c a)) with (ncols a).
  apply cov_of_weights_ext. intros i j _ _.
  rewrite projection_z_scale_intensity, sum_projection_scale_intensity.
  now apply scaled_quotient.
Qed.

Lemma pca_angle_scale_intensity (eig : mat2 R -> eig_result) (a : array3) :
  calculate_pca_rotation_angle eig (scale_intensity c a)
  = calculate_pca_rotation_angle eig a.
Proof.
  unfold calculate_pca_rotation_angle.
  rewrite sum_projection_scale_intensity.
  destruct (Req_dec_T (sum_grid a (projection_z a)) 0) as [E | E].
  - destruct (Req_dec_T (c * sum_grid a (projection_z a)) 0) as [_ | E'];
      [reflexivity | exfalso; apply E'; rewrite E; ring].
  - destruct (Req_dec_T (c * sum_grid a (projection_z a)) 0) as [E' | _];
      [exfalso; nra |].
    now rewrite cov_matrix_scale_intensity.
Qed.

(** The rotation of a scaled stack is the scaled rotation, for a
    homogeneous resampler. *)
Lemma rotate_image_scaled
    (rs : nat * nat -> float64 -> nat * nat) (rd : array2 -> float64 -> nat -> nat -> R)
    (a : array3) (angle : float64) (rot : array3) :
  resampler_homogeneous rs rd c ->
  rotate_image rs rd a angle = Ok rot ->
  exists rot', rotate_image rs rd (scale_intensity c a) angle = Ok rot'
               /\ scaled3 c rot rot'.
Proof.
  intros Hh Hrot. unfold rotate_image in *.
  change (depth (scale_intensity c a)) with (depth a).
  destruct (depth a) as [| d]; [discriminate |].
  injection Hrot as <-. eexists. split; [reflexivity |].
  split; [reflexivity |].
  intros i j k Hi Hj Hk. unfold nrows, ncols, depth in Hi, Hj, Hk.
  cbn [shape3 data3 fst snd] in *.
  assert (Hs : scaled2 c (slice_z a k) (slice_z (scale_intensity c a) k))
    by (split; [reflexivity | intros; reflexivity]).
  destruct (Hh _ _ angle Hs) as [_ Hd]. apply Hd; assumption.
Qed.

End AngleScaling.

(** A returned record comes from a run in which neither check fired. *)
Lemma process_image_Ok_inv
    (vx vy vz : R) (eig : mat2 R -> eig_result)
    (rs : nat * nat -> float64 -> nat * nat) (rd : array2 -> float64 -> nat -> nat -> R)
    (image_3d : array3) (area : R) (r : SpreadResult) :
  process_image vx vy vz eig rs rd image_3d area = Ok r ->
  exists rot,
    any_negative (to_yxz image_3d) = false /\
    rotate_image rs rd (to_yxz image_3d)
      (calculate_pca_rotation_angle eig (to_yxz image_3d)) = Ok rot /\
    any_negative rot = false.
Proof.
  unfold process_image.
  destruct (any_negative (to_yxz image_3d)); [discriminate |].
  destruct (calculate_fluorescence vx vy (to_yxz image_3d) area) as [fp fu].
  destruct (rotate_image rs rd (to_yxz image_3d) _) as [rot | e]; [| discriminate].
  destruct (any_negative rot) eqn:E; [discriminate |].
  intros _. now exists rot.
Qed.

(** C8, amended: for a factor [c > 0] and a resampler that is homogeneous
    in the intensities, when [process_image] returns a record for a volume
    it returns one for the volume with every intensity multiplied by [c];
    all the spreads of the two records, in pixel and in physical units, are
    equal, and the axonal volumes are the two-decimal roundings of the
    profile total [T] and of [c * T]: the metric scales with the intensity
    sum before the rounding of the result record. *)
Theorem process_image_intensity_scaling_C8
    (vx vy vz : R) (eig : mat2 R -> eig_result)
    (rs : nat * nat -> float64 -> nat * nat) (rd : array2 -> float64 -> nat -> nat -> R)
    (image_3d : array3) (area : R) (c : R) (r : SpreadResult) :
  0 < c ->
  resampler_homogeneous rs rd c ->
  process_image vx vy vz eig rs rd image_3d area = Ok r ->
  exists r' p,
    process_image vx vy vz eig rs rd (scale_intensity c image_3d) area = Ok r' /\
    pixel_spreads r' = pixel_spreads r /\
    physical_spreads r' = physical_spreads r /\
    pipeline_profile eig rs rd image_3d = Some p /\
    axonal_volume r = fround2 (of_R (Rsum (profile_MMsum p))) /\
    axonal_volume r' = fround2 (of_R (c * Rsum (profile_MMsum p))).
Proof.
  intros Hc Hh Hr.
  destruct (process_image_Ok_inv _ _ _ _ _ _ _ _ _ Hr) as (rot & Hin & Hrot & Hneg).
  rewrite (process_image_ok vx vy vz eig rs rd image_3d area rot Hin Hrot Hneg) in Hr.
  injection Hr as <-.
  destruct (rotate_image_scaled c rs rd _ _ rot Hh Hrot) as (rot' & Hrot' & Hsc).
  assert (Hin' : any_negative (to_yxz (scale_intensity c image_3d)) = false).
  { rewrite to_yxz_scale_intensity.
    rewrite (any_negative_scaled c Hc (to_yxz image_3d)); [assumption |].
    apply scaled3_scale_intensity. }
  assert (Hrot'' : rotate_image rs rd (to_yxz (scale_intensity c image_3d))
                     (calculate_pca_rotation_angle eig
                        (to_yxz (scale_intensity c image_3d))) = Ok rot').
  { now rewrite to_yxz_scale_intensity, (pca_angle_scale_intensity c Hc). }
  assert (Hneg' : any_negative rot' = false)
    by now rewrite (any_negative_scaled c Hc rot rot' Hsc).
  rewrite (process_image_ok vx vy vz eig rs rd _ area rot' Hin' Hrot'' Hneg').
  rewrite (local_spreads_scaled c Hc (rot90 rot) (rot90 rot'))
    by now apply scaled3_rot90.
  set (p := calculate_local_spreads (rot90 rot) true).
  exists (add_metadata
            (calculate_global_spreads vx vy vz (map (Rmult c) (profile_MMsum p))
               (profile_MMyy p) (profile_MMzz p) (profile_xx00 p))
            (fst (calculate_fluorescence vx vy (to_yxz (scale_intensity c image_3d)) area))
            (snd (calculate_fluorescence vx vy (to_yxz (scale_intensity c image_3d)) area))
            (calculate_pca_rotation_angle eig (to_yxz (scale_intensity c image_3d)))), p.
  split; [reflexivity |].
  destruct (global_spreads_scaled c Hc vx vy vz (profile_MMsum p) (profile_MMyy p)
              (profile_MMzz p) (profile_xx00 p)) as [Hpx Hum].
  repeat split.
  - exact Hpx.
  - exact Hum.
  - unfold pipeline_profile. now rewrite Hrot.
  - cbn [axonal_volume add_metadata]. apply global_spreads_axonal_volume.
  - cbn [axonal_volume add_metadata].
    now rewrite global_spreads_axonal_volume, Rsum_map_scal.
Qed.

(** The resampler at angle zero is homogeneous. *)
Lemma rotate_by_zero_homogeneous (c : R) :
  resampler_homogeneous rotate_shape_by_zero rotate_data_by_zero c.
Proof. intros s s' angle [Hshape Hdata]. split; simpl; assumption. Qed.

(** The run of the pipeline on a single voxel of intensity [v]: the angle
    is 0.0, the rotation by zero returns the voxel, and the axonal volume is
    [v] rounded to two decimals. *)
Lemma one_voxel_run (v : R) :
  0 <= v ->
  exists r,
    process_image 1 1 1 eig_of_diagonal rotate_shape_by_zero rotate_data_by_zero
      (full 1 1 1 v) 1 = Ok r
    /\ axonal_volume r = fround2 (of_R v).
Proof.
  intros Hv.
  assert (Hin : any_negative (to_yxz (full 1 1 1 v)) = false).
  { apply any_negative_false. intros i j k _ _ _. exact Hv. }
  assert (Hex : exists rot,
             rotate_image rotate_shape_by_zero rotate_data_by_zero (to_yxz (full 1 1 1 v))
               (calculate_pca_rotation_angle eig_of_diagonal (to_yxz (full 1 1 1 v)))
             = Ok rot
             /\ shape3 rot = (1%nat, 1%nat, 1%nat)
             /\ forall i j k, data3 rot i j k = v).
  { change (to_yxz (full 1 1 1 v)) with (full 1 1 1 v).
    eexists. split; [reflexivity |]. split; [reflexivity | intros; reflexivity]. }
  destruct Hex as (rot & Hrot & Hshape & Hdata).
  assert (Hneg : any_negative rot = false).
  { apply any_negative_false. intros i j k _ _ _. now rewrite Hdata. }
  eexists. split.
  - exact (process_image_ok 1 1 1 eig_of_diagonal rotate_shape_by_zero
             rotate_data_by_zero (full 1 1 1 v) 1 rot Hin Hrot Hneg).
  - cbn [axonal_volume add_metadata].
    rewrite global_spreads_axonal_volume, local_spreads_total.
    do 2 f_equal.
    assert (Hr : nrows rot = 1%nat) by (unfold nrows; now rewrite Hshape).
    assert (Hc : ncols rot = 1%nat) by (unfold ncols; now rewrite Hshape).
    assert (Hd : depth rot = 1%nat) by (unfold depth; now rewrite Hshape).
    unfold slab_sum_spec, sum_over.
    change (ncols (rot90 rot)) with (nrows rot).
    change (nrows (rot90 rot)) with (ncols rot).
    change (depth (rot90 rot)) with (depth rot).
    rewrite Hr, Hc, Hd. cbn [seq map Rsum fold_right].
    unfold rot90. cbn [data3]. rewrite Hdata. ring.
Qed.

(** C8, as stated, fails for the axonal volume: for the single voxel of
    intensity 0.004 the metric returned is 0.0; with the intensity doubled
    the total doubles and the metric returned is 0.01, not twice 0.0.  The
    covariance matrix of a single voxel is zero, the angle is 0.0 in both
    runs, and the rotation by 0.0 returns its input. *)
Lemma axonal_volume_not_scaled_C8 :
  field_of axonal_volume
    (process_image 1 1 1 eig_of_diagonal rotate_shape_by_zero rotate_data_by_zero
       (full 1 1 1 (4 / 1000)) 1) = Some (FNum false 0) /\
  field_of axonal_volume
    (process_image 1 1 1 eig_of_diagonal rotate_shape_by_zero rotate_data_by_zero
       (scale_intensity 2 (full 1 1 1 (4 / 1000))) 1) = Some (FNum false (1 / 100)) /\
  sum3 (scale_intensity 2 (full 1 1 1 (4 / 1000))) = 2 * sum3 (full 1 1 1 (4 / 1000)) /\
  FNum false (1 / 100) <> fmul (of_R 2) (FNum false 0) /\
  calculate_pca_rotation_angle eig_of_diagonal (to_yxz (full 1 1 1 (4 / 1000))) = fzero /\
  calculate_pca_rotation_angle eig_of_diagonal
    (to_yxz (scale_intensity 2 (full 1 1 1 (4 / 1000)))) = fzero.
Proof.
  split; [| split; [| split; [| split; [| split]]]];
    try apply pca_angle_identity_eigenvectors.
  - destruct (one_voxel_run (4 / 1000)) as (r & -> & Hr); [lra |].
    cbn [field_of]. rewrite Hr, of_R_nonneg by lra. cbn [fround2]. do 2 f_equal.
    transitivity (IZR 0 / 100); [| lra].
    apply round2_unique. apply Rabs_def1; lra.
  - change (scale_intensity 2 (full 1 1 1 (4 / 1000))) with (full 1 1 1 (2 * (4 / 1000))).
    destruct (one_voxel_run (2 * (4 / 1000))) as (r & -> & Hr); [lra |].
    cbn [field_of]. rewrite Hr, of_R_nonneg by lra. cbn [fround2]. do 2 f_equal.
    apply (round2_unique _ 1). apply Rabs_def1; lra.
  - unfold sum3, sum_over. simpl. ring.
  - rewrite of_R_nonneg by lra. simpl. intros H. injection H as H. lra.
Qed.

Lemma process_image_intensity_scaling_C8_witness :
  exists r r' p,
    process_image 1 1 1 eig_of_diagonal rotate_shape_by_zero rotate_data_by_zero
      (full 1 1 1 (4 / 1000)) 1 = Ok r /\
    process_image 1 1 1 eig_of_diagonal rotate_shape_by_zero rotate_data_by_zero
      (scale_intensity 2 (full 1 1 1 (4 / 1000))) 1 = Ok r' /\
    pixel_spreads r' = pixel_spreads r /\
    physical_spreads r' = physical_spreads r /\
    pipeline_profile eig_of_diagonal rotate_shape_by_zero rotate_data_by_zero
      (full 1 1 1 (4 / 1000)) = Some p /\
    axonal_volume r = fround2 (of_R (Rsum (profile_MMsum p))) /\
    axonal_volume r' = fround2 (of_R (2 * Rsum (profile_MMsum p))).
Proof.
  assert (Hv : 0 <= 4 / 1000) by lra.
  assert (Hc : 0 < 2) by lra.
  destruct (one_voxel_run (4 / 1000) Hv) as (r & Hr & _).
  destruct (process_image_intensity_scaling_C8 1 1 1 eig_of_diagonal
              rotate_shape_by_zero rotate_data_by_zero (full 1 1 1 (4 / 1000)) 1 2 r
              Hc (rotate_by_zero_homogeneous 2) Hr) as (r' & p & H).
  exists r, r', p. split; [exact Hr | exact H].
Defined.

(* ================================================================== *)
(** ** Voxel-size validation *)
(* ================================================================== *)

Lemma Rleb_true a b : a <= b -> Rleb a b = true.
Proof. intros H; unfold Rleb; destruct (Rle_dec a b); [reflexivity | contradiction]. Qed.

Lemma Rleb_false a b : b < a -> Rleb a b = false.
Proof. intros H; unfold Rleb; destruct (Rle_dec a b); [lra | reflexivity]. Qed.

Lemma fvalue_of_R (r : R) : fvalue (Rltb r 0) (Rabs r) = r.
Proof.
  unfold fvalue. destruct (Rlt_dec r 0) as [H | H].
  - rewrite Rltb_true, Rabs_left by assumption. ring.
  - rewrite Rltb_false, Rabs_pos_eq by lra. reflexivity.
Qed.

Lemma fle_of_R (r c : R) : fle (of_R r) c = Rleb r c.
Proof. unfold of_R, fle. now rewrite fvalue_of_R. Qed.

Lemma fgt_of_R (r c : R) : fgt (of_R r) c = Rltb c r.
Proof. unfold of_R, fgt. now rewrite fvalue_of_R. Qed.

Lemma Rleb_spec (a b : R) : Rleb a b = true <-> a <= b.
Proof. unfold Rleb. destruct (Rle_dec a b); split; intros; try easy. Qed.

Lemma Rltb_spec (a b : R) : Rltb a b = true <-> a < b.
Proof. unfold Rltb. destruct (Rlt_dec a b); split; intros; try easy. Qed.

(** X1: for finite voxel sizes, [validate_parameters] answers [(True, "")]
    exactly when X and Y lie in (0, 10] and Z lies in (0, 50]. *)
Theorem validate_parameters_accepts_X1 (a b c : R) :
  validate_parameters (of_R a) (of_R b) (of_R c) = (true, ""%string)
  <-> (0 < a <= 10 /\ 0 < b <= 10 /\ 0 < c <= 50).
Proof.
  unfold validate_parameters. rewrite !fle_of_R, !fgt_of_R.
  pose proof (Rleb_spec a 0). pose proof (Rleb_spec b 0). pose proof (Rleb_spec c 0).
  pose proof (Rltb_spec 10 a). pose proof (Rltb_spec 10 b). pose proof (Rltb_spec 50 c).
  destruct (Rleb a 0), (Rleb b 0), (Rleb c 0), (Rltb 10 a), (Rltb 10 b), (Rltb 50 c);
    cbn [orb]; split; intros Hx; try discriminate; try reflexivity;
    try (exfalso; intuition lra);
    (repeat split; match goal with
                   | |- _ < _ => apply Rnot_le_lt; intuition congruence
                   | |- _ <= _ => apply Rnot_lt_le; intuition congruence
                   end).
Qed.

(** X2: a NaN voxel size is never rejected: with NaN in one position the
    answer is the one obtained with the valid size 1.0 in that position, so
    three NaN sizes are accepted. *)
Theorem validate_parameters_nan_X2 (x y z : float64) :
  validate_parameters FNaN y z = validate_parameters (of_R 1) y z /\
  validate_parameters x FNaN z = validate_parameters x (of_R 1) z /\
  validate_parameters x y FNaN = validate_parameters x y (of_R 1) /\
  validate_parameters FNaN FNaN FNaN = (true, ""%string).
Proof.
  assert (L : fle (of_R 1) 0 = false) by (rewrite fle_of_R; apply Rleb_false; lra).
  assert (G1 : fgt (of_R 1) 10 = false) by (rewrite fgt_of_R; apply Rltb_false; lra).
  assert (G2 : fgt (of_R 1) 50 = false) by (rewrite fgt_of_R; apply Rltb_false; lra).
  unfold validate_parameters. rewrite L, G1, G2. cbn [fle fgt orb].
  rewrite !orb_false_r. repeat split; reflexivity.
Qed.

(** X3: the two validators, [validate_voxel_sizes] of [config.py] and
    [validate_parameters] of [image_processor.py], give the same verdict on
    every triple of floats (NaN and infinities included); each returns the
    empty message exactly when it accepts. *)
Theorem validators_agree_X3 (x y z : float64) :
  fst (validate_voxel_sizes x y z) = fst (validate_parameters x y z) /\
  (snd (validate_voxel_sizes x y z) = ""%string
   <-> fst (validate_voxel_sizes x y z) = true) /\
  (snd (validate_parameters x y z) = ""%string
   <-> fst (validate_parameters x y z) = true).
Proof.
  unfold validate_voxel_sizes, validate_parameters, MAX_VOXEL_SIZE_XY, MAX_VOXEL_SIZE_Z.
  destruct (fle x 0 || fle y 0 || fle z 0);
    [repeat split; intros; discriminate |].
  destruct (fgt x 10 || fgt y 10), (fgt z 50); cbn;
    repeat split; intros; try reflexivity; discriminate.
Qed.

(* ================================================================== *)
(** ** Edge behaviour of the fluorescence and of the orchestrator *)
(* ================================================================== *)

(** X4: with a region area of zero [calculate_fluorescence] does not fail:
    for positive voxel sizes both values are NaN when the total intensity is
    zero, and the infinity of the sign of the total otherwise. *)
Theorem fluorescence_zero_area_X4 (vx vy : R) (image_3d : array3) :
  0 < vx -> 0 < vy ->
  calculate_fluorescence vx vy image_3d 0 =
  if Req_dec_T (sum3 image_3d) 0 then (FNaN, FNaN)
  else (FInf (Rltb (sum3 image_3d) 0), FInf (Rltb (sum3 image_3d) 0)).
Proof.
  intros Hx Hy. unfold calculate_fluorescence. cbv zeta.
  rewrite Rmult_0_l, of_R_0. unfold of_R, fzero. cbn [fdiv].
  rewrite (Reqb_true 0 0) by reflexivity.
  destruct (Req_dec_T (sum3 image_3d) 0) as [E | E].
  - rewrite E, Rabs_R0, (Reqb_true 0 0) by reflexivity. reflexivity.
  - rewrite (Reqb_false (Rabs (sum3 image_3d)) 0) by now apply Rabs_no_R0.
    rewrite xorb_false_r. reflexivity.
Qed.

Lemma fluorescence_zero_area_X4_witness :
  calculate_fluorescence 1 1 (full 1 1 1 1) 0 = (FInf false, FInf false).
Proof.
  assert (H1 : 0 < 1) by lra.
  rewrite (fluorescence_zero_area_X4 1 1 (full 1 1 1 1) H1 H1).
  rewrite sum3_full_111.
  destruct (Req_dec_T 1 0) as [E | _]; [lra |].
  now rewrite Rltb_false by lra.
Defined.

(** The layout normalisation permutes the voxels: the total is kept. *)
Lemma sum3_transpose_120 (a : array3) : sum3 (transpose_120 a) = sum3 a.
Proof.
  unfold sum3.
  change (nrows (transpose_120 a)) with (ncols a).
  change (ncols (transpose_120 a)) with (depth a).
  change (depth (transpose_120 a)) with (nrows a).
  cbn [transpose_120 data3].
  rewrite (sum_over_ext (ncols a) _
             (fun i => sum_over (nrows a) (fun k =>
                       sum_over (depth a) (fun j => data3 a k i j))))
    by (intros i _; apply sum_over_swap).
  apply sum_over_swap.
Qed.

Lemma sum3_to_yxz (a : array3) : sum3 (to_yxz a) = sum3 a.
Proof.
  unfold to_yxz. destruct (nrows a <? depth a)%nat;
    [apply sum3_transpose_120 | reflexivity].
Qed.

(** X5: whenever [process_image] returns a record, the record carries the
    four keys set at the end of the function, also in the degenerate case in
    which [_get_empty_results] had supplied defaults: the two fluorescence
    values are those of [calculate_fluorescence] on the input as given (the
    layout normalisation does not change them), the rotation angle is the
    PCA angle rounded to two decimals, and the additional rotation is 90. *)
Theorem process_image_metadata_X5
    (vx vy vz : R) (eig : mat2 R -> eig_result)
    (rs : nat * nat -> float64 -> nat * nat) (rd : array2 -> float64 -> nat -> nat -> R)
    (image_3d : array3) (area : R) (r : SpreadResult) :
  process_image vx vy vz eig rs rd image_3d area = Ok r ->
  fluorescence_px r = Some (fst (calculate_fluorescence vx vy image_3d area)) /\
  fluorescence_um r = Some (snd (calculate_fluorescence vx vy image_3d area)) /\
  rotation_angle r
  = Some (fround2 (calculate_pca_rotation_angle eig (to_yxz image_3d))) /\
  additional_rotation r = Some 90%Z.
Proof.
  intros Hr.
  destruct (process_image_Ok_inv _ _ _ _ _ _ _ _ _ Hr) as (rot & Hin & Hrot & Hneg).
  rewrite (process_image_ok vx vy vz eig rs rd image_3d area rot Hin Hrot Hneg) in Hr.
  injection Hr as <-. cbn [fluorescence_px fluorescence_um rotation_angle
                                additional_rotation add_metadata].
  unfold calculate_fluorescence. rewrite sum3_to_yxz. repeat split; reflexivity.
Qed.

Lemma process_image_metadata_X5_witness :
  exists r,
    process_image 1 1 1 eig_of_diagonal rotate_shape_by_zero rotate_data_by_zero
      (full 1 1 1 1) 1 = Ok r /\
    additional_rotation r = Some 90%Z.
Proof.
  assert (Hv : 0 <= 1) by lra.
  destruct (one_voxel_run 1 Hv) as (r & Hr & _).
  exists r. split; [exact Hr |].
  exact (proj2 (proj2 (proj2 (process_image_metadata_X5 _ _ _ _ _ _ _ _ r Hr)))).
Defined.

Lemma any_negative_no_slices (a : array3) : depth a = 0%nat -> any_negative a = false.
Proof.
  intros Hd. apply any_negative_false. intros i j k _ _ Hk. lia.
Qed.

Lemma depth_to_yxz (a : array3) :
  depth (to_yxz a) = if (nrows a <? depth a)%nat then nrows a else depth a.
Proof. unfold to_yxz. now destruct (nrows a <? depth a)%nat. Qed.

(** X6: [process_image] raises [IndexError] (from [image_yxz[:, :, 0]] in
    [rotate_image]) exactly for the arrays that have no row or no slice. *)
Theorem process_image_index_error_X6
    (vx vy vz : R) (eig : mat2 R -> eig_result)
    (rs : nat * nat -> float64 -> nat * nat) (rd : array2 -> float64 -> nat -> nat -> R)
    (image_3d : array3) (area : R) :
  process_image vx vy vz eig rs rd image_3d area = Raise IndexError
  <-> (nrows image_3d = 0%nat \/ depth image_3d = 0%nat).
Proof.
  split.
  - unfold process_image.
    destruct (any_negative (to_yxz image_3d)); [discriminate |].
    destruct (calculate_fluorescence vx vy (to_yxz image_3d) area) as [fp fu].
    unfold rotate_image.
    destruct (depth (to_yxz image_3d)) as [| d] eqn:Ed.
    + intros _. rewrite depth_to_yxz in Ed.
      destruct (nrows image_3d <? depth image_3d)%nat; auto.
    + cbv zeta. destruct (any_negative _); [discriminate |].
      destruct (calculate_local_spreads _ true) as [[[s vyy] vzz] xx]. discriminate.
  - intros H.
    assert (Hd : depth (to_yxz image_3d) = 0%nat).
    { rewrite depth_to_yxz.
      destruct (Nat.ltb_spec (nrows image_3d) (depth image_3d)); lia. }
    unfold process_image. rewrite (any_negative_no_slices _ Hd).
    destruct (calculate_fluorescence vx vy (to_yxz image_3d) area) as [fp fu].
    unfold rotate_image. now rewrite Hd.
Qed.

(* ================================================================== *)
(** ** The two conventions of the local spread profile *)
(* ================================================================== *)

Lemma sum_over_S_first (n : nat) (f : nat -> R) :
  sum_over (S n) f = f 0%nat + sum_over n (fun y => f (S y)).
Proof.
  unfold sum_over. cbn [seq map Rsum fold_right].
  now rewrite <- seq_shift, map_map.
Qed.

(** A sum read backwards. *)
Lemma sum_over_rev (n : nat) (f : nat -> R) :
  sum_over n (fun y => f (n - 1 - y)%nat) = sum_over n f.
Proof.
  induction n as [| n IH]; [reflexivity |].
  rewrite sum_over_S_first, (sum_over_S n f).
  replace (S n - 1 - 0)%nat with n by lia.
  rewrite (sum_over_ext n _ (fun y => f (n - 1 - y)%nat))
    by (intros y Hy; f_equal; lia).
  rewrite IH. ring.
Qed.

Lemma sum_over_minus (n : nat) (f g : nat -> R) :
  sum_over n (fun i => f i - g i) = sum_over n f - sum_over n g.
Proof.
  induction n as [| n IH]; [rewrite !sum_over_0; ring |].
  rewrite !sum_over_S, IH. ring.
Qed.

(** The variance of the positions does not change when the marginal is
    read backwards, as long as [T] is its (non-zero) total. *)
Lemma marginal_variance_rev (n : nat) (marg : nat -> R) (T : R) :
  T <> 0 -> sum_over n marg = T ->
  marginal_variance n (fun y => marg (n - 1 - y)%nat) T = marginal_variance n marg T.
Proof.
  intros HT Hsum. unfold marginal_variance.
  set (m := sum_over n (fun y0 => INR (y0 + 1) * marg y0) / T).
  assert (Hm : sum_over n (fun y0 => INR (y0 + 1) * marg (n - 1 - y0)%nat) / T
               = INR (n + 1) - m).
  { rewrite <- (sum_over_rev n (fun y0 => INR (y0 + 1) * marg (n - 1 - y0)%nat)).
    rewrite (sum_over_ext n _ (fun y => INR (n + 1) * marg y - INR (y + 1) * marg y)).
    - rewrite (sum_over_minus n (fun y => INR (n + 1) * marg y)
                 (fun y => INR (y + 1) * marg y)).
      rewrite (sum_over_scal n (INR (n + 1)) marg), Hsum.
      unfold m. field. exact HT.
    - intros y Hy.
      replace (n - 1 - (n - 1 - y))%nat with y by lia.
      replace (n - 1 - y + 1)%nat with (n - y)%nat by lia.
      rewrite minus_INR, !plus_INR by lia. simpl. ring. }
  rewrite Hm. f_equal.
  rewrite <- (sum_over_rev n (fun y => (INR (y + 1) - (INR (n + 1) - m)) ^ 2
                                       * marg (n - 1 - y)%nat)).
  apply sum_over_ext. intros y Hy.
  replace (n - 1 - (n - 1 - y))%nat with y by lia.
  replace (n - 1 - y + 1)%nat with (n - y)%nat by lia.
  rewrite minus_INR, !plus_INR by lia. simpl. ring.
Qed.

(** One iteration of the loop on a slab whose rows are read backwards. *)
Lemma slab_spreads_rev (nz ny : nat) (MM : nat -> nat -> R) :
  slab_spreads nz ny (fun z y => MM z (ny - 1 - y)%nat) = slab_spreads nz ny MM.
Proof.
  rewrite !slab_spreads_marginals. cbv zeta.
  assert (H1 : forall z, sum_over ny (fun y => MM z (ny - 1 - y)%nat)
                         = sum_over ny (fun y => MM z y))
    by (intros z; apply (sum_over_rev ny (fun y => MM z y))).
  assert (HT : sum_over nz (fun z => sum_over ny (fun y => MM z (ny - 1 - y)%nat))
               = sum_over nz (fun z => sum_over ny (fun y => MM z y)))
    by (apply sum_over_ext; intros z _; apply H1).
  rewrite HT.
  set (T := sum_over nz (fun z => sum_over ny (fun y => MM z y))).
  destruct (Rlt_dec 0 T) as [Hpos | Hnpos]; [| reflexivity].
  f_equal; [f_equal |].
  - f_equal.
    apply (marginal_variance_rev ny (fun y => sum_over nz (fun z => MM z y)) T); [lra |].
    unfold T. symmetry. apply sum_over_swap.
  - f_equal. unfold marginal_variance.
    rewrite (sum_over_ext nz (fun y0 => INR (y0 + 1)
                                * sum_over ny (fun y => MM y0 (ny - 1 - y)%nat))
               (fun y0 => INR (y0 + 1) * sum_over ny (fun y => MM y0 y)))
      by (intros z _; now rewrite H1).
    f_equal. apply sum_over_ext. intros z _. now rewrite H1.
Qed.

(** X7: the quarter turn of [process_image] followed by the standard
    convention yields exactly the profile of the legacy (MATLAB) convention
    on the volume before the turn: the same sums, the same two variance
    sequences and the same coordinates. *)
Theorem local_spreads_rot90_is_legacy_X7 (a : array3) :
  calculate_local_spreads (rot90 a) true = calculate_local_spreads a false.
Proof.
  unfold calculate_local_spreads.
  change (nrows (rot90 a)) with (ncols a).
  change (ncols (rot90 a)) with (nrows a).
  change (depth (rot90 a)) with (depth a).
  cbn [rot90 data3].
  assert (E : map (fun i => slab_spreads (depth a) (ncols a)
                              (fun z y => data3 a i (ncols a - 1 - y)%nat z))
                (seq 0 (nrows a))
              = map (fun i => slab_spreads (depth a) (ncols a)
                                (fun z y => data3 a i y z))
                  (seq 0 (nrows a))).
  { apply map_ext. intros i.
    apply (slab_spreads_rev (depth a) (ncols a) (fun z y => data3 a i y z)). }
  now rewrite E.
Qed.

(** X8: the four sequences of a profile have one length: the number of
    columns in the standard convention, the number of rows in the legacy
    one. *)
Theorem local_spreads_lengths_X8 (a : array3) (standard : bool) :
  let p := calculate_local_spreads a standard in
  let n := if standard then ncols a else nrows a in
  length (profile_MMsum p) = n /\ length (profile_MMyy p) = n /\
  length (profile_MMzz p) = n /\ length (profile_xx00 p) = n.
Proof.
  intros p n. subst p n. unfold calculate_local_spreads, arange1.
  destruct standard;
    unfold profile_MMsum, profile_MMyy, profile_MMzz, profile_xx00; cbn [fst snd];
    rewrite !length_map, length_seq; repeat split; reflexivity.
Qed.

(* ================================================================== *)
(** ** Spreads of a non-negative volume *)
(* ================================================================== *)

Lemma Int_part_nonneg (x : R) : 0 <= x -> (0 <= Int_part x)%Z.
Proof.
  intros Hx. destruct (base_Int_part x) as [_ H].
  assert (H1 : IZR (- 1) < IZR (Int_part x)) by (simpl; lra).
  apply lt_IZR in H1. lia.
Qed.

Lemma rint_nonneg (x : R) : 0 <= x -> (0 <= rint x)%Z.
Proof.
  intros Hx. pose proof (Int_part_nonneg x Hx). unfold rint.
  destruct (Rlt_dec _ _); [assumption |].
  destruct (Rlt_dec _ _); [lia |].
  destruct (Z.even _); lia.
Qed.

Lemma round2_nonneg (m : R) : 0 <= m -> 0 <= round2 m.
Proof.
  intros Hm. unfold round2.
  assert (H : (0 <= rint (m * 100))%Z) by (apply rint_nonneg; lra).
  apply IZR_le in H. unfold Rdiv. lra.
Qed.

Lemma finite_nonneg_fround2 (x : float64) : finite_nonneg x -> finite_nonneg (fround2 x).
Proof.
  intros (m & -> & Hm). exists (round2 m). split; [reflexivity | now apply round2_nonneg].
Qed.

Lemma finite_nonneg_fmul (x y : float64) :
  finite_nonneg x -> finite_nonneg y -> finite_nonneg (fmul x y).
Proof.
  intros (m & -> & Hm) (m' & -> & Hm'). exists (m * m').
  split; [reflexivity | now apply Rmult_le_pos].
Qed.

Lemma finite_nonneg_of_R (r : R) : 0 <= r -> finite_nonneg (of_R r).
Proof. intros H. exists r. split; [now apply of_R_nonneg | assumption]. Qed.

Lemma finite_nonneg_fsqrt_of_R (r : R) : 0 <= r -> finite_nonneg (fsqrt (of_R r)).
Proof.
  intros H. rewrite of_R_nonneg by assumption. exists (sqrt r).
  split; [reflexivity | apply sqrt_pos].
Qed.

Lemma Rsum_nonneg (l : list R) : Forall (fun s => 0 <= s) l -> 0 <= Rsum l.
Proof.
  induction 1 as [| x l Hx Hl IH]; simpl; lra.
Qed.

Lemma Rsum_map2_nonneg {A : Type} (f : R -> A -> R) (sums : list R) (l : list A) :
  (forall s a, 0 <= s -> 0 <= f s a) ->
  Forall (fun s => 0 <= s) sums -> 0 <= Rsum (map2 f sums l).
Proof.
  intros Hf Hs. revert l.
  induction Hs as [| s sums Hs0 Hs IH]; intros [| a l]; simpl; try lra.
  specialize (IH l). specialize (Hf s a Hs0). lra.
Qed.

Lemma nansum_map2_nonneg (vv : list nanable) (sums : list R) :
  Forall nan_or_nonneg vv -> Forall (fun s => 0 <= s) sums ->
  0 <= nansum (map2 nan_mul vv sums).
Proof.
  unfold nansum. intros Hv. revert sums.
  induction Hv as [| v vv Hv0 Hv IH]; intros sums Hs; [simpl; lra |].
  destruct Hs as [| s sums Hs0 Hs]; [simpl; lra |].
  simpl. specialize (IH sums Hs).
  destruct v as [r |]; simpl in *; nra.
Qed.

Lemma quotient_nonneg (x T : R) : 0 <= x -> 0 < T -> 0 <= x / T.
Proof.
  intros Hx HT. unfold Rdiv. apply Rmult_le_pos; [assumption |].
  apply Rlt_le, Rinv_0_lt_compat, HT.
Qed.

(** On a profile of non-negative sums and non-negative (or NaN) variances
    whose total is not zero, no spread is NaN: the ten spreads are finite
    and non-negative, for positive voxel sizes. *)
Lemma global_spreads_finite
    (vx vy vz : R) (sums : list R) (vyy vzz : list nanable) (xx00 : list R) :
  0 < vx -> 0 < vy -> 0 < vz ->
  Forall (fun s => 0 <= s) sums ->
  Forall nan_or_nonneg vyy -> Forall nan_or_nonneg vzz ->
  Rsum sums <> 0 ->
  spreads_finite (calculate_global_spreads vx vy vz sums vyy vzz xx00).
Proof.
  intros Hx Hy Hz Hs Hvy Hvz Hne.
  assert (HT : 0 < Rsum sums) by (pose proof (Rsum_nonneg sums Hs); lra).
  assert (Sx : finite_nonneg (spread_x_px sums xx00)).
  { unfold spread_x_px. apply finite_nonneg_fsqrt_of_R, quotient_nonneg; [| exact HT].
    apply Rsum_map2_nonneg; [| exact Hs].
    intros s a H0. apply Rmult_le_pos; [assumption | apply pow2_ge_0]. }
  assert (Sy : finite_nonneg (spread_transverse_px sums vyy)).
  { unfold spread_transverse_px.
    apply finite_nonneg_fsqrt_of_R, quotient_nonneg; [| exact HT].
    now apply nansum_map2_nonneg. }
  assert (Sz : finite_nonneg (spread_transverse_px sums vzz)).
  { unfold spread_transverse_px.
    apply finite_nonneg_fsqrt_of_R, quotient_nonneg; [| exact HT].
    now apply nansum_map2_nonneg. }
  assert (Vx : finite_nonneg (of_R vx)) by (apply finite_nonneg_of_R; lra).
  assert (Vy : finite_nonneg (of_R vy)) by (apply finite_nonneg_of_R; lra).
  assert (Vz : finite_nonneg (of_R vz)) by (apply finite_nonneg_of_R; lra).
  unfold calculate_global_spreads.
  destruct (Req_dec_T (Rsum sums) 0) as [E | _]; [contradiction |].
  unfold spreads_finite. cbv zeta.
  cbn [spread_x_pixel spread_y_pixel spread_z_pixel spread_xy_pixel spread_xyz_pixel
       spread_x_um spread_y_um spread_z_um spread_xy_um spread_xyz_um].
  repeat split; apply finite_nonneg_fround2;
    repeat (apply finite_nonneg_fmul); assumption.
Qed.

Lemma marginal_variance_nonneg (n : nat) (marg : nat -> R) (T : R) :
  0 < T -> (forall y, (y < n)%nat -> 0 <= marg y) -> 0 <= marginal_variance n marg T.
Proof.
  intros HT Hm. unfold marginal_variance. apply quotient_nonneg; [| exact HT].
  apply sum_over_nonneg. intros y Hy.
  apply Rmult_le_pos; [apply pow2_ge_0 | now apply Hm].
Qed.

(** One iteration of the loop on a non-negative slab. *)
Lemma slab_spreads_nonneg (nz ny : nat) (MM : nat -> nat -> R) :
  (forall z y, (z < nz)%nat -> (y < ny)%nat -> 0 <= MM z y) ->
  0 <= fst (fst (slab_spreads nz ny MM)) /\
  nan_or_nonneg (snd (fst (slab_spreads nz ny MM))) /\
  nan_or_nonneg (snd (slab_spreads nz ny MM)).
Proof.
  intros H. rewrite slab_spreads_marginals. cbv zeta.
  set (T := sum_over nz (fun z => sum_over ny (fun y => MM z y))).
  assert (HT : 0 <= T).
  { apply sum_over_nonneg; intros z Hz. apply sum_over_nonneg; intros y Hy. now apply H. }
  destruct (Rlt_dec 0 T) as [Hpos | _]; cbn [fst snd nan_or_nonneg]; [| easy].
  repeat split; try assumption.
  - apply marginal_variance_nonneg; [assumption |].
    intros y Hy. apply sum_over_nonneg; intros z Hz. now apply H.
  - apply marginal_variance_nonneg; [assumption |].
    intros z Hz. apply sum_over_nonneg; intros y Hy. now apply H.
Qed.

Lemma Forall_map_seq {A : Type} (P : A -> Prop) (f : nat -> A) (n : nat) :
  (forall i, (i < n)%nat -> P (f i)) -> Forall P (map f (seq 0 n)).
Proof.
  intros H. apply Forall_forall. intros x Hx.
  apply in_map_iff in Hx. destruct Hx as (i & <- & Hi).
  apply in_seq in Hi. apply H. lia.
Qed.

(** The profile of a non-negative volume: non-negative sums, and variances
    that are non-negative where they are not NaN. *)
Lemma local_spreads_nonneg (a : array3) :
  non_negative a ->
  Forall (fun s => 0 <= s) (profile_MMsum (calculate_local_spreads a true)) /\
  Forall nan_or_nonneg (profile_MMyy (calculate_local_spreads a true)) /\
  Forall nan_or_nonneg (profile_MMzz (calculate_local_spreads a true)).
Proof.
  intros Ha. rewrite local_spreads_standard.
  unfold profile_MMsum, profile_MMyy, profile_MMzz. cbn [fst snd].
  assert (H : forall i, (i < ncols a)%nat ->
              forall z y, (z < depth a)%nat -> (y < nrows a)%nat -> 0 <= data3 a y i z)
    by (intros; now apply Ha).
  repeat split; apply Forall_map_seq; intros i Hi;
    destruct (slab_spreads_nonneg (depth a) (nrows a) (fun z y => data3 a y i z)
                (H i Hi)) as (H1 & H2 & H3); assumption.
Qed.

(** X9: for a non-negative volume with signal and positive voxel sizes, the
    record computed from its profile holds no NaN: the ten spreads, in pixel
    and in physical units, are finite and non-negative. *)
Theorem spreads_never_nan_X9 (vx vy vz : R) (a : array3) :
  0 < vx -> 0 < vy -> 0 < vz ->
  non_negative a ->
  Rsum (profile_MMsum (calculate_local_spreads a true)) <> 0 ->
  let p := calculate_local_spreads a true in
  spreads_finite
    (calculate_global_spreads vx vy vz (profile_MMsum p) (profile_MMyy p)
       (profile_MMzz p) (profile_xx00 p)).
Proof.
  intros Hx Hy Hz Ha Hne p. subst p.
  destruct (local_spreads_nonneg a Ha) as (H1 & H2 & H3).
  now apply global_spreads_finite.
Qed.

(** The sums of the profile add up to the total intensity of the volume. *)
Lemma local_spreads_total_sum3 (a : array3) :
  Rsum (profile_MMsum (calculate_local_spreads a true)) = sum3 a.
Proof.
  rewrite local_spreads_total. unfold slab_sum_spec, sum3.
  apply (sum_over_swap (ncols a) (nrows a)
           (fun i y => sum_over (depth a) (fun z => data3 a y i z))).
Qed.

Lemma sum3_column_volume : sum3 column_volume = 3.
Proof. unfold sum3, sum_over. simpl. ring. Qed.

Lemma non_negative_column_volume : non_negative column_volume.
Proof. intros i j k _ _ _. simpl. lra. Qed.

Lemma spreads_never_nan_X9_witness :
  spreads_finite
    (calculate_global_spreads 1 1 1
       (profile_MMsum (calculate_local_spreads column_volume true))
       (profile_MMyy (calculate_local_spreads column_volume true))
       (profile_MMzz (calculate_local_spreads column_volume true))
       (profile_xx00 (calculate_local_spreads column_volume true))).
Proof.
  assert (H1 : 0 < 1) by lra.
  assert (Hne : Rsum (profile_MMsum (calculate_local_spreads column_volume true)) <> 0)
    by (rewrite local_spreads_total_sum3, sum3_column_volume; lra).
  exact (spreads_never_nan_X9 1 1 1 column_volume H1 H1 H1
           non_negative_column_volume Hne).
Defined.

(** The quarter turn permutes the voxels: the total is kept. *)
Lemma sum3_rot90 (a : array3) : sum3 (rot90 a) = sum3 a.
Proof.
  unfold sum3.
  change (nrows (rot90 a)) with (ncols a).
  change (ncols (rot90 a)) with (nrows a).
  change (depth (rot90 a)) with (depth a).
  cbn [rot90 data3].
  rewrite (sum_over_rev (ncols a)
             (fun i => sum_over (nrows a) (fun j =>
                       sum_over (depth a) (fun k => data3 a j i k)))).
  apply (sum_over_swap (ncols a) (nrows a)
           (fun i j => sum_over (depth a) (fun k => data3 a j i k))).
Qed.

(** X10: whenever [process_image] returns a record, its axonal volume is
    the total intensity of the rotated volume (the output of [rotate_image],
    after resampling), rounded to two decimals; the quarter turn and the
    profile do not change that total. *)
Theorem axonal_volume_is_rotated_total_X10
    (vx vy vz : R) (eig : mat2 R -> eig_result)
    (rs : nat * nat -> float64 -> nat * nat) (rd : array2 -> float64 -> nat -> nat -> R)
    (image_3d : array3) (area : R) (r : SpreadResult) :
  process_image vx vy vz eig rs rd image_3d area = Ok r ->
  exists rot,
    rotate_image rs rd (to_yxz image_3d)
      (calculate_pca_rotation_angle eig (to_yxz image_3d)) = Ok rot /\
    axonal_volume r = fround2 (of_R (sum3 rot)).
Proof.
  intros Hr.
  destruct (process_image_Ok_inv _ _ _ _ _ _ _ _ _ Hr) as (rot & Hin & Hrot & Hneg).
  pose proof (process_image_ok vx vy vz eig rs rd image_3d area rot Hin Hrot Hneg) as Hok.
  cbv zeta in Hok. rewrite Hr in Hok.
  match type of Hok with Ok _ = Ok ?t => assert (Er : r = t) by congruence end.
  exists rot. split; [exact Hrot |].
  rewrite Er. cbn [axonal_volume add_metadata].
  now rewrite global_spreads_axonal_volume, local_spreads_total_sum3, sum3_rot90.
Qed.

Lemma axonal_volume_is_rotated_total_X10_witness :
  exists r rot,
    process_image 1 1 1 eig_of_diagonal rotate_shape_by_zero rotate_data_by_zero
      (full 1 1 1 1) 1 = Ok r /\
    rotate_image rotate_shape_by_zero rotate_data_by_zero (to_yxz (full 1 1 1 1))
      (calculate_pca_rotation_angle eig_of_diagonal (to_yxz (full 1 1 1 1))) = Ok rot /\
    axonal_volume r = fround2 (of_R (sum3 rot)).
Proof.
  assert (Hv : 0 <= 1) by lra.
  destruct (one_voxel_run 1 Hv) as (r & Hr & _).
  destruct (axonal_volume_is_rotated_total_X10 _ _ _ _ _ _ _ _ r Hr) as (rot & H).
  exists r, rot. split; [exact Hr | exact H].
Defined.

(* ================================================================== *)
(** ** Degenerate geometry and the origin of the coordinates *)
(* ================================================================== *)

Lemma spread_x_px_finite (sums xx00 : list R) :
  Forall (fun s => 0 <= s) sums -> Rsum sums <> 0 ->
  finite_nonneg (spread_x_px sums xx00).
Proof.
  intros Hs Hne.
  assert (HT : 0 < Rsum sums) by (pose proof (Rsum_nonneg sums Hs); lra).
  unfold spread_x_px. apply finite_nonneg_fsqrt_of_R, quotient_nonneg; [| exact HT].
  apply Rsum_map2_nonneg; [| exact Hs].
  intros s a H0. apply Rmult_le_pos; [assumption | apply pow2_ge_0].
Qed.

Lemma spread_transverse_px_finite (sums : list R) (vv : list nanable) :
  Forall (fun s => 0 <= s) sums -> Forall nan_or_nonneg vv -> Rsum sums <> 0 ->
  finite_nonneg (spread_transverse_px sums vv).
Proof.
  intros Hs Hv Hne.
  assert (HT : 0 < Rsum sums) by (pose proof (Rsum_nonneg sums Hs); lra).
  unfold spread_transverse_px.
  apply finite_nonneg_fsqrt_of_R, quotient_nonneg; [| exact HT].
  now apply nansum_map2_nonneg.
Qed.

Lemma nansum_map2_zero (vv : list nanable) (sums : list R) :
  Forall nan_or_zero vv -> nansum (map2 nan_mul vv sums) = 0.
Proof.
  unfold nansum. intros Hv. revert sums.
  induction Hv as [| v vv Hv0 Hv IH]; intros [| s sums]; simpl; try reflexivity.
  rewrite IH. destruct v as [r |]; simpl in *; [subst r |]; ring.
Qed.

(** A profile whose variances are all zero or NaN has a zero spread. *)
Lemma spread_transverse_px_zero (sums : list R) (vv : list nanable) :
  Forall nan_or_zero vv -> spread_transverse_px sums vv = fzero.
Proof.
  intros Hv. unfold spread_transverse_px. rewrite nansum_map2_zero by assumption.
  replace (0 / Rsum sums) with 0 by (unfold Rdiv; ring).
  rewrite of_R_0. unfold fzero. simpl. now rewrite sqrt_0.
Qed.

Lemma marginal_variance_single (marg : nat -> R) (T : R) :
  T <> 0 -> marg 0%nat = T -> marginal_variance 1 marg T = 0.
Proof.
  intros HT H0. unfold marginal_variance, sum_over. simpl. rewrite H0. field. exact HT.
Qed.

(** One iteration of the loop on a slab of a single slice: the depth
    variance is zero, or NaN when the slab carries no signal. *)
Lemma slab_spreads_single_slice (ny : nat) (MM : nat -> nat -> R) :
  nan_or_zero (snd (slab_spreads 1 ny MM)).
Proof.
  rewrite slab_spreads_marginals. cbv zeta.
  destruct (Rlt_dec 0 _) as [Hpos | _]; cbn [snd nan_or_zero]; [| exact I].
  apply marginal_variance_single; [lra |].
  unfold sum_over at 2. simpl. ring.
Qed.

Lemma fround2_fmul_fzero_r (x : float64) :
  finite_nonneg x -> fround2 (fmul x fzero) = fzero.
Proof.
  intros (m & -> & _). unfold fzero. simpl. now rewrite Rmult_0_r, round2_0.
Qed.

Lemma fmul_fzero_of_R (v : R) : 0 < v -> fmul fzero (of_R v) = fzero.
Proof.
  intros Hv. rewrite of_R_nonneg by lra. unfold fzero. simpl. f_equal. ring.
Qed.

(** X11: a non-negative stack of a single slice with signal has no spread
    in depth: the Z spread and the combined XYZ spread of the record
    computed from its profile are 0.0, in pixel and in physical units. *)
Theorem single_slice_zero_depth_spread_X11 (vx vy vz : R) (a : array3) :
  0 < vx -> 0 < vy -> 0 < vz ->
  non_negative a -> depth a = 1%nat ->
  Rsum (profile_MMsum (calculate_local_spreads a true)) <> 0 ->
  let p := calculate_local_spreads a true in
  let r := calculate_global_spreads vx vy vz (profile_MMsum p) (profile_MMyy p)
             (profile_MMzz p) (profile_xx00 p) in
  spread_z_pixel r = fzero /\ spread_z_um r = fzero /\
  spread_xyz_pixel r = fzero /\ spread_xyz_um r = fzero.
Proof.
  intros Hx Hy Hz Ha Hd Hne p r. subst r p.
  destruct (local_spreads_nonneg a Ha) as (H1 & H2 & H3).
  assert (Hzz : Forall nan_or_zero (profile_MMzz (calculate_local_spreads a true))).
  { rewrite local_spreads_standard. unfold profile_MMzz. cbn [fst snd].
    apply Forall_map_seq. intros i Hi. rewrite Hd. apply slab_spreads_single_slice. }
  pose proof (spread_x_px_finite _ (profile_xx00 (calculate_local_spreads a true))
                H1 Hne) as Sx.
  pose proof (spread_transverse_px_finite _ _ H1 H2 Hne) as Sy.
  unfold calculate_global_spreads.
  destruct (Req_dec_T _ 0) as [E | _]; [contradiction |].
  cbv zeta. cbn [spread_z_pixel spread_z_um spread_xyz_pixel spread_xyz_um].
  rewrite (spread_transverse_px_zero _ _ Hzz), (fmul_fzero_of_R vz Hz).
  repeat split.
  - apply fround2_fzero.
  - apply fround2_fzero.
  - apply fround2_fmul_fzero_r. now apply finite_nonneg_fmul.
  - apply fround2_fmul_fzero_r.
    repeat apply finite_nonneg_fmul; try assumption; apply finite_nonneg_of_R; lra.
Qed.

Lemma single_slice_zero_depth_spread_X11_witness :
  spread_z_pixel
    (calculate_global_spreads 1 1 1
       (profile_MMsum (calculate_local_spreads column_volume true))
       (profile_MMyy (calculate_local_spreads column_volume true))
       (profile_MMzz (calculate_local_spreads column_volume true))
       (profile_xx00 (calculate_local_spreads column_volume true))) = fzero.
Proof.
  assert (H1 : 0 < 1) by lra.
  assert (Hd : depth column_volume = 1%nat) by reflexivity.
  assert (Hne : Rsum (profile_MMsum (calculate_local_spreads column_volume true)) <> 0)
    by (rewrite local_spreads_total_sum3, sum3_column_volume; lra).
  exact (proj1 (single_slice_zero_depth_spread_X11 1 1 1 column_volume H1 H1 H1
                  non_negative_column_volume Hd Hne)).
Defined.

Lemma map2_map_r {A B B' C : Type} (f : A -> B -> C) (g : B' -> B)
    (l1 : list A) (l2 : list B') :
  map2 f l1 (map g l2) = map2 (fun a b => f a (g b)) l1 l2.
Proof.
  revert l2. induction l1 as [| a l1 IH]; intros [| b l2]; simpl; try reflexivity.
  now rewrite IH.
Qed.

Lemma map2_map_l {A A' B C : Type} (f : A -> B -> C) (g : A' -> A)
    (l1 : list A') (l2 : list B) :
  map2 f (map g l1) l2 = map2 (fun a b => f (g a) b) l1 l2.
Proof.
  revert l2. induction l1 as [| a l1 IH]; intros [| b l2]; simpl; try reflexivity.
  now rewrite IH.
Qed.

Lemma map2_ext {A B C : Type} (f g : A -> B -> C) (l1 : list A) (l2 : list B) :
  (forall a b, f a b = g a b) -> map2 f l1 l2 = map2 g l1 l2.
Proof.
  intros H. revert l2. induction l1 as [| a l1 IH]; intros [| b l2]; simpl;
    try reflexivity. now rewrite IH, H.
Qed.

Lemma Rsum_map2_shift (xx sums : list R) (t : R) :
  length xx = length sums ->
  Rsum (map2 (fun x s => (x + t) * s) xx sums)
  = Rsum (map2 Rmult xx sums) + t * Rsum sums.
Proof.
  revert sums. induction xx as [| x xx IH]; intros [| s sums] Hl; simpl in *;
    try discriminate; [ring |].
  rewrite IH by lia. ring.
Qed.

(** The X spread does not depend on the origin of the coordinates. *)
Lemma spread_x_px_shift (sums xx00 : list R) (t : R) :
  length xx00 = length sums -> Rsum sums <> 0 ->
  spread_x_px sums (map (fun x => x + t) xx00) = spread_x_px sums xx00.
Proof.
  intros Hl Hne. unfold spread_x_px.
  rewrite map2_map_l, Rsum_map2_shift by assumption.
  rewrite map2_map_r.
  replace ((Rsum (map2 Rmult xx00 sums) + t * Rsum sums) / Rsum sums)
    with (Rsum (map2 Rmult xx00 sums) / Rsum sums + t) by (field; exact Hne).
  rewrite (map2_ext _ (fun s x => s * (x - Rsum (map2 Rmult xx00 sums) / Rsum sums) ^ 2))
    by (intros s x; ring).
  reflexivity.
Qed.

(** X12: [calculate_global_spreads] does not depend on where the positions
    are counted from: for a coordinate sequence as long as the profile,
    adding a constant to every coordinate (1-indexed or 0-indexed
    positions, say) gives the same record. *)
Theorem global_spreads_origin_free_X12
    (vx vy vz : R) (sums : list R) (vyy vzz : list nanable) (xx00 : list R) (t : R) :
  length xx00 = length sums ->
  calculate_global_spreads vx vy vz sums vyy vzz (map (fun x => x + t) xx00)
  = calculate_global_spreads vx vy vz sums vyy vzz xx00.
Proof.
  intros Hl. unfold calculate_global_spreads.
  destruct (Req_dec_T (Rsum sums) 0) as [E | E]; [reflexivity |].
  cbv zeta. now rewrite spread_x_px_shift.
Qed.

Lemma global_spreads_origin_free_X12_witness :
  calculate_global_spreads 1 1 1 gapped_sums gapped_vars gapped_vars
    (map (fun x => x + - 1) gapped_xx00)
  = calculate_global_spreads 1 1 1 gapped_sums gapped_vars gapped_vars gapped_xx00.
Proof.
  apply global_spreads_origin_free_X12. reflexivity.
Defined.

(* ================================================================== *)
(** ** The caller: validated Z range and the pipeline *)
(* ================================================================== *)

(** What an accepted state holds. *)
Lemma validate_processing_parameters_accepted (self : ProcessingState) :
  _validate_processing_parameters self = None ->
  exists channel points area voxel_x voxel_y voxel_z,
    complexity_channel self = Some channel /\
    polygon_points self = Some points /\ (3 <= length points)%nat /\
    AArea self = Some area /\ fle area 0 = false /\
    (spinBox_zmin self < spinBox_zmax self <= nrows channel)%nat /\
    lineEdit_pixel_size_X self = Some voxel_x /\
    lineEdit_pixel_size_Y self = Some voxel_y /\
    lineEdit_pixel_size_Z self = Some voxel_z /\
    fle voxel_x 0 || fle voxel_y 0 || fle voxel_z 0 = false.
Proof.
  unfold _validate_processing_parameters.
  destruct (complexity_channel self) as [channel |]; [| discriminate].
  destruct (polygon_points self) as [points |]; [| discriminate].
  destruct (Nat.ltb_spec (length points) 3); [discriminate |].
  destruct (AArea self) as [area |]; [| discriminate].
  destruct (fle area 0) eqn:Ea; [discriminate |].
  cbv zeta.
  destruct (Nat.leb_spec (spinBox_zmax self) (spinBox_zmin self)); [discriminate |].
  destruct (Nat.ltb_spec (nrows channel) (spinBox_zmax self)); [discriminate |].
  destruct (lineEdit_pixel_size_X self) as [x |]; [| discriminate].
  destruct (lineEdit_pixel_size_Y self) as [y |]; [| discriminate].
  destruct (lineEdit_pixel_size_Z self) as [z |]; [| discriminate].
  destruct (fle x 0 || fle y 0 || fle z 0) eqn:Ev; [discriminate |].
  intros _. exists channel, points, area, x, y, z.
  repeat split; try reflexivity; try assumption; lia.
Qed.

(** X13: when [_validate_processing_parameters] accepts, the Z range that
    [_prepare_masked_images] cuts out of the complexity channel is never
    empty.  It holds [z_end - z_start + 1] slices when [z_end] is an index
    of the stack, and one slice fewer when [z_end] equals the number of
    slices, a value the validation accepts although the last index is one
    less. *)
Theorem validated_z_range_X13 (self : ProcessingState) :
  _validate_processing_parameters self = None ->
  let z_start := spinBox_zmin self in
  let z_end := spinBox_zmax self in
  exists channel subset,
    complexity_channel self = Some channel /\
    fst (_prepare_masked_images self z_start z_end) = Some subset /\
    (1 <= nrows subset)%nat /\
    (z_end < nrows channel -> nrows subset = z_end - z_start + 1)%nat /\
    (z_end = nrows channel -> nrows subset = z_end - z_start)%nat /\
    (forall i j k, (i < nrows subset)%nat ->
                   data3 subset i j k = data3 channel (z_start + i) j k
                   /\ (z_start + i < nrows channel)%nat).
Proof.
  intros Hv z_start z_end. subst z_start z_end.
  destruct (validate_processing_parameters_accepted self Hv)
    as (channel & points & area & x & y & z & Hc & _ & _ & _ & _ & Hz & _).
  exists channel, (z_subset channel (spinBox_zmin self) (spinBox_zmax self)).
  unfold _prepare_masked_images. rewrite Hc. cbn [fst].
  assert (Hn : nrows (z_subset channel (spinBox_zmin self) (spinBox_zmax self))
               = (Nat.min (spinBox_zmax self + 1) (nrows channel)
                  - spinBox_zmin self)%nat) by reflexivity.
  rewrite Hn.
  split; [reflexivity |]. split; [reflexivity |].
  split; [lia |]. split; [lia |]. split; [lia |].
  intros i j k Hi. split; [reflexivity | lia].
Qed.

Lemma example_state_accepted : _validate_processing_parameters example_state = None.
Proof.
  unfold _validate_processing_parameters, example_state.
  cbn [complexity_channel polygon_points AArea spinBox_zmin spinBox_zmax
       lineEdit_pixel_size_X lineEdit_pixel_size_Y lineEdit_pixel_size_Z length].
  rewrite !fle_of_R, !Rleb_false by lra. reflexivity.
Qed.

Lemma validated_z_range_X13_witness :
  exists channel subset,
    complexity_channel example_state = Some channel /\
    fst (_prepare_masked_images example_state 1 3) = Some subset /\
    (1 <= nrows subset)%nat.
Proof.
  destruct (validated_z_range_X13 example_state example_state_accepted)
    as (channel & subset & H1 & H2 & H3 & _).
  exists channel, subset. repeat split; assumption.
Defined.

(** With at least one slice in the normalised layout the first slice
    exists. *)
Lemma process_image_no_index_error
    (vx vy vz : R) (eig : mat2 R -> eig_result)
    (rs : nat * nat -> float64 -> nat * nat) (rd : array2 -> float64 -> nat -> nat -> R)
    (image_3d : array3) (area : R) :
  (0 < depth (to_yxz image_3d))%nat ->
  process_image vx vy vz eig rs rd image_3d area <> Raise IndexError.
Proof.
  intros Hd. unfold process_image.
  destruct (any_negative (to_yxz image_3d)); [discriminate |].
  destruct (calculate_fluorescence vx vy (to_yxz image_3d) area) as [fp fu].
  unfold rotate_image.
  destruct (depth (to_yxz image_3d)) as [| d]; [lia |].
  cbv zeta. destruct (any_negative _); [discriminate |].
  destruct (calculate_local_spreads _ true) as [[[s vyy] vzz] xx]. discriminate.
Qed.

(** X14: after [_validate_processing_parameters] has accepted, the stack
    that [_prepare_masked_images] hands to [process_image] cannot make it
    raise [IndexError], as long as the image has at least one column: the
    pipeline returns a record or raises one of its two [ValueError]s. *)
Theorem validated_pipeline_no_index_error_X14
    (vx vy vz : R) (eig : mat2 R -> eig_result)
    (rs : nat * nat -> float64 -> nat * nat) (rd : array2 -> float64 -> nat -> nat -> R)
    (self : ProcessingState) (channel : array3) (area : R) :
  _validate_processing_parameters self = None ->
  complexity_channel self = Some channel ->
  (0 < depth channel)%nat ->
  exists subset,
    fst (_prepare_masked_images self (spinBox_zmin self) (spinBox_zmax self))
    = Some subset /\
    ((exists r, process_image vx vy vz eig rs rd subset area = Ok r) \/
     (exists msg, process_image vx vy vz eig rs rd subset area = Raise (ValueError msg))).
Proof.
  intros Hv Hc Hw.
  destruct (validate_processing_parameters_accepted self Hv)
    as (channel' & points & a & x & y & z & Hc' & _ & _ & _ & _ & Hz & _).
  rewrite Hc in Hc'. injection Hc' as <-.
  set (subset := z_subset channel (spinBox_zmin self) (spinBox_zmax self)).
  assert (Hp : fst (_prepare_masked_images self (spinBox_zmin self) (spinBox_zmax self))
               = Some subset)
    by (unfold _prepare_masked_images; now rewrite Hc).
  assert (Hd : (0 < depth (to_yxz subset))%nat).
  { rewrite depth_to_yxz.
    assert (Hn : nrows subset
                 = (Nat.min (spinBox_zmax self + 1) (nrows channel)
                    - spinBox_zmin self)%nat) by reflexivity.
    change (depth subset) with (depth channel).
    destruct (nrows subset <? depth channel)%nat; lia. }
  pose proof (process_image_no_index_error vx vy vz eig rs rd subset area Hd) as Hne.
  exists subset. split; [exact Hp |].
  destruct (process_image vx vy vz eig rs rd subset area) as [r | [msg |]].
  - left. now exists r.
  - right. now exists msg.
  - contradiction.
Qed.

Lemma validated_pipeline_no_index_error_X14_witness :
  exists subset,
    fst (_prepare_masked_images example_state 1 3) = Some subset /\
    ((exists r,
         process_image 1 1 1 eig_of_diagonal rotate_shape_by_zero rotate_data_by_zero
           subset 2 = Ok r) \/
     (exists msg,
         process_image 1 1 1 eig_of_diagonal rotate_shape_by_zero rotate_data_by_zero
           subset 2 = Raise (ValueError msg))).
Proof.
  apply (validated_pipeline_no_index_error_X14 1 1 1 eig_of_diagonal
           rotate_shape_by_zero rotate_data_by_zero example_state (full 5 4 4 1) 2).
  - exact example_state_accepted.
  - reflexivity.
  - unfold depth. simpl. lia.
Defined.

(** X15: once [_validate_processing_parameters] has accepted, the voxel
    sizes it parsed pass the first check of [validate_parameters], which
    [process] runs next: [validate_parameters] can then only accept or
    answer with one of its two "unusual" messages, never with "All voxel
    sizes must be positive". *)
Theorem validated_voxel_sizes_X15 (self : ProcessingState) :
  _validate_processing_parameters self = None ->
  exists voxel_x voxel_y voxel_z,
    lineEdit_pixel_size_X self = Some voxel_x /\
    lineEdit_pixel_size_Y self = Some voxel_y /\
    lineEdit_pixel_size_Z self = Some voxel_z /\
    snd (validate_parameters voxel_x voxel_y voxel_z)
    <> "All voxel sizes must be positive"%string /\
    (fst (validate_parameters voxel_x voxel_y voxel_z) = false ->
     fgt voxel_x 10 || fgt voxel_y 10 || fgt voxel_z 50 = true).
Proof.
  intros Hv.
  destruct (validate_processing_parameters_accepted self Hv)
    as (channel & points & a & x & y & z & _ & _ & _ & _ & _ & _ & Hx & Hy & Hz & Hpos).
  exists x, y, z. repeat split; try assumption.
  - unfold validate_parameters. rewrite Hpos.
    destruct (fgt x 10 || fgt y 10); [discriminate |].
    destruct (fgt z 50); discriminate.
  - unfold validate_parameters. rewrite Hpos.
    destruct (fgt x 10 || fgt y 10); [reflexivity |].
    destruct (fgt z 50); [reflexivity | discriminate].
Qed.

Lemma validated_voxel_sizes_X15_witness :
  exists voxel_x voxel_y voxel_z,
    lineEdit_pixel_size_X example_state = Some voxel_x /\
    lineEdit_pixel_size_Y example_state = Some voxel_y /\
    lineEdit_pixel_size_Z example_state = Some voxel_z /\
    snd (validate_parameters voxel_x voxel_y voxel_z)
    <> "All voxel sizes must be positive"%string.
Proof.
  destruct (validated_voxel_sizes_X15 example_state example_state_accepted)
    as (x & y & z & H1 & H2 & H3 & H4 & _).
  exists x, y, z. repeat split; assumption.
Defined.

(* ================================================================== *)
(** ** The covariance matrix and the layout heuristic *)
(* ================================================================== *)

Lemma grid_sum_plus (nr nc : nat) (f g : nat -> nat -> R) :
  sum_over nr (fun i => sum_over nc (fun j => f i j + g i j))
  = sum_over nr (fun i => sum_over nc (fun j => f i j))
    + sum_over nr (fun i => sum_over nc (fun j => g i j)).
Proof.
  rewrite <- sum_over_plus. apply sum_over_ext. intros i _. apply sum_over_plus.
Qed.

Lemma grid_sum_scal (nr nc : nat) (c : R) (f : nat -> nat -> R) :
  sum_over nr (fun i => sum_over nc (fun j => c * f i j))
  = c * sum_over nr (fun i => sum_over nc (fun j => f i j)).
Proof.
  rewrite <- sum_over_scal. apply sum_over_ext. intros i _. apply sum_over_scal.
Qed.

(** The quadratic form of the covariance matrix is a weighted sum of
    squares. *)
Lemma cov_of_weights_quadratic (nr nc : nat) (w : nat -> nat -> R) (u v : R) :
  let M := cov_of_weights nr nc w in
  let Mx := sum_over nr (fun i => sum_over nc (fun j => INR j * w i j)) in
  let My := sum_over nr (fun i => sum_over nc (fun j => INR i * w i j)) in
  u * u * m00 M + 2 * u * v * m01 M + v * v * m11 M
  = sum_over nr (fun i => sum_over nc (fun j =>
      w i j * (u * (INR j - Mx) + v * (INR i - My)) ^ 2)).
Proof.
  intros M Mx My. subst M. unfold cov_of_weights. cbv zeta. cbn [m00 m01 m11].
  fold Mx My.
  rewrite <- !grid_sum_scal, <- !grid_sum_plus.
  apply grid_sum_ext. intros i j _ _. ring.
Qed.

(** X16: for a non-negative volume whose projection has a non-zero total,
    the matrix handed to [np.linalg.eig] is symmetric and positive
    semi-definite: its quadratic form is non-negative for every direction
    [(u, v)], and so are its two diagonal entries. *)
Theorem cov_matrix_positive_semidefinite_X16 (a : array3) (u v : R) :
  non_negative a ->
  sum_grid a (projection_z a) <> 0 ->
  let M := cov_matrix a in
  m01 M = m10 M /\
  0 <= u * u * m00 M + 2 * u * v * m01 M + v * v * m11 M /\
  0 <= m00 M /\ 0 <= m11 M.
Proof.
  intros Ha Hne M. subst M.
  assert (HP : forall i j, (i < nrows a)%nat -> (j < ncols a)%nat ->
                           0 <= projection_z a i j).
  { intros i j Hi Hj. unfold projection_z. apply sum_over_nonneg.
    intros k Hk. now apply Ha. }
  assert (HS : 0 < sum_grid a (projection_z a)).
  { assert (0 <= sum_grid a (projection_z a)); [| lra].
    unfold sum_grid. apply sum_over_nonneg; intros i Hi.
    apply sum_over_nonneg; intros j Hj. now apply HP. }
  assert (Hw : forall i j, (i < nrows a)%nat -> (j < ncols a)%nat ->
                           0 <= projection_z a i j / sum_grid a (projection_z a))
    by (intros; apply quotient_nonneg; auto).
  assert (Hq : forall u v,
             0 <= u * u * m00 (cov_matrix a) + 2 * u * v * m01 (cov_matrix a)
                  + v * v * m11 (cov_matrix a)).
  { intros u' v'. rewrite cov_matrix_weights, cov_of_weights_quadratic.
    apply sum_over_nonneg; intros i Hi. apply sum_over_nonneg; intros j Hj.
    apply Rmult_le_pos; [now apply Hw | apply pow2_ge_0]. }
  split; [reflexivity |]. split; [apply Hq |].
  split.
  - pose proof (Hq 1 0). lra.
  - pose proof (Hq 0 1). lra.
Qed.

Lemma cov_matrix_positive_semidefinite_X16_witness :
  0 <= 1 * 1 * m00 (cov_matrix column_volume)
       + 2 * 1 * 1 * m01 (cov_matrix column_volume)
       + 1 * 1 * m11 (cov_matrix column_volume).
Proof.
  assert (Hne : sum_grid column_volume (projection_z column_volume) <> 0)
    by (rewrite sum_grid_column_volume; lra).
  exact (proj1 (proj2 (cov_matrix_positive_semidefinite_X16 column_volume 1 1
                         non_negative_column_volume Hne))).
Defined.

(** X17: the layout heuristic of [process_image] leaves its own output
    alone exactly when the input has at least as many rows as slices (it
    was not reordered) or at most as many rows as columns; an array with
    fewer columns than rows and fewer rows than slices is reordered a
    second time when it is normalised again. *)
Theorem to_yxz_stable_X17 (a : array3) :
  to_yxz (to_yxz a) = to_yxz a
  <-> (depth a <= nrows a \/ nrows a <= ncols a)%nat.
Proof.
  unfold to_yxz at 2 3.
  destruct (Nat.ltb_spec (nrows a) (depth a)) as [Hlt | Hge].
  - unfold to_yxz.
    change (nrows (transpose_120 a)) with (ncols a).
    change (depth (transpose_120 a)) with (nrows a).
    destruct (Nat.ltb_spec (ncols a) (nrows a)) as [Hlt' | Hge'].
    + split; [| lia]. intros E. apply (f_equal shape3) in E.
      unfold transpose_120 in E. cbn [shape3] in E.
      change (ncols {| shape3 := (ncols a, depth a, nrows a);
                       data3 := fun i j k => data3 a k i j |}) with (depth a) in E.
      change (depth {| shape3 := (ncols a, depth a, nrows a);
                       data3 := fun i j k => data3 a k i j |}) with (nrows a) in E.
      change (nrows {| shape3 := (ncols a, depth a, nrows a);
                       data3 := fun i j k => data3 a k i j |}) with (ncols a) in E.
      injection E as E1 E2 E3. lia.
    + split; [lia | reflexivity].
  - unfold to_yxz. destruct (Nat.ltb_spec (nrows a) (depth a)); [lia |].
    split; [lia | reflexivity].
Qed.
